(** * pybitcoin: a shallow embedding of the ECC, ECDSA, DER, Script,
    Merkle and integer-codec code of the pybitcoin library, with the
    properties of its specification settled against it. *)

From Stdlib Require Import String Ascii ZArith List Lia Bool.
From Stdlib Require Import Strings.Byte.
From Stdlib Require Zmod.ZmodInv.
From Bignums Require Import BigZ.
Import ListNotations.
Open Scope Z_scope.
Open Scope list_scope.

(* ================================================================== *)
(** ** Python exceptions and the error monad *)

Inductive PyExc : Type :=
| AttributeError
| TypeError
| ValueError
| OverflowError
| AssertionError
| IndexError.

(** The result of a Python call: a value, or the exception it raises. *)
Inductive Res (A : Type) : Type :=
| Ok (a : A)
| Err (e : PyExc).
Arguments Ok {A} a.
Arguments Err {A} e.

Definition bind {A B} (m : Res A) (k : A -> Res B) : Res B :=
  match m with Ok a => k a | Err e => Err e end.

Notation "'let*' x ':=' m 'in' k" := (bind m (fun x => k))
  (at level 200, x name, m at level 100, k at level 200).

Definition res_map {A B} (f : A -> B) (m : Res A) : Res B :=
  match m with Ok a => Ok (f a) | Err e => Err e end.

(** Python's [assert b]. *)
Definition py_assert (b : bool) : Res unit :=
  if b then Ok tt else Err AssertionError.

(* ================================================================== *)
(** ** Bytes *)

Definition bZ (b : byte) : Z := Z.of_N (Byte.to_N b).

(** The byte of an integer known to lie in [0, 256). *)
Definition byte_of_Z (z : Z) : byte :=
  match Byte.of_N (Z.to_N z) with Some b => b | None => x00 end.

(** [bytes([i0, i1, ...])]: ValueError unless every item is in range(256). *)
Definition py_bytes (l : list Z) : Res (list byte) :=
  if forallb (fun i => (0 <=? i) && (i <? 256)) l
  then Ok (map byte_of_Z l) else Err ValueError.

(** [int.from_bytes(b, "big")] and [int.from_bytes(b, "little")]. *)
Definition from_bytes_be (l : list byte) : Z :=
  fold_left (fun acc b => acc * 256 + bZ b) l 0.

Definition from_bytes_le (l : list byte) : Z := from_bytes_be (rev l).

Inductive Endian := Big | Little.

Definition from_bytes (l : list byte) (e : Endian) : Z :=
  match e with Big => from_bytes_be l | Little => from_bytes_le l end.

(** The [n] low-order bytes of [i], most significant first. *)
Fixpoint be_bytes (n : nat) (i : Z) : list byte :=
  match n with
  | O => []
  | S n' => be_bytes n' (i / 256) ++ [byte_of_Z (i mod 256)]
  end.

(** [i.to_bytes(n, "big")]: OverflowError unless [0 <= i < 256^n]. *)
Definition to_bytes_be (i : Z) (n : nat) : Res (list byte) :=
  if (0 <=? i) && (i <? 256 ^ Z.of_nat n) then Ok (be_bytes n i)
  else Err OverflowError.

Definition to_bytes (i : Z) (n : nat) (e : Endian) : Res (list byte) :=
  match e with
  | Big => to_bytes_be i n
  | Little => res_map (@rev byte) (to_bytes_be i n)
  end.

(** [b.lstrip(b"\x00")]. *)
Fixpoint lstrip0 (l : list byte) : list byte :=
  match l with
  | x00 :: t => lstrip0 t
  | _ => l
  end.

(** [b.hex()]: lowercase hexadecimal digits. *)
Definition hex_digit (n : Z) : ascii :=
  if n <? 10 then ascii_of_nat (48 + Z.to_nat n)
  else ascii_of_nat (87 + Z.to_nat n).

Fixpoint hex_of_bytes (l : list byte) : string :=
  match l with
  | [] => EmptyString
  | b :: t => String (hex_digit (bZ b / 16)) (String (hex_digit (bZ b mod 16))
                (hex_of_bytes t))
  end.

(* ================================================================== *)
(** ** SHA-256, hash256 and HMAC-SHA256 (hashlib / hmac, FIPS 180-4) *)

Module SHA256.

Definition w32 (x : Z) : Z := Z.land x (Z.ones 32).
Definition rotr (x n : Z) : Z := Z.lor (Z.shiftr x n) (w32 (Z.shiftl x (32 - n))).
Definition bsig0 (x : Z) : Z := Z.lxor (Z.lxor (rotr x 2) (rotr x 13)) (rotr x 22).
Definition bsig1 (x : Z) : Z := Z.lxor (Z.lxor (rotr x 6) (rotr x 11)) (rotr x 25).
Definition ssig0 (x : Z) : Z := Z.lxor (Z.lxor (rotr x 7) (rotr x 18)) (Z.shiftr x 3).
Definition ssig1 (x : Z) : Z := Z.lxor (Z.lxor (rotr x 17) (rotr x 19)) (Z.shiftr x 10).
Definition ch (e f g : Z) : Z := Z.lxor (Z.land e f) (Z.land (Z.lxor e (Z.ones 32)) g).
Definition maj (a b c : Z) : Z := Z.lxor (Z.lxor (Z.land a b) (Z.land a c)) (Z.land b c).

(** The primes below 312: the first 64 primes. *)
Definition is_prime (n : Z) : bool :=
  forallb (fun d => negb (n mod d =? 0)) (map Z.of_nat (seq 2 (Z.to_nat n - 2))).

Definition primes : list Z := filter is_prime (map Z.of_nat (seq 2 310)).

(** The integer cube root, by bisection on [[lo, hi)]. *)
Fixpoint icbrt_go (n lo hi : Z) (fuel : nat) : Z :=
  match fuel with
  | O => lo
  | S f =>
      let mid := (lo + hi) / 2 in
      if mid ^ 3 <=? n then icbrt_go n mid hi f else icbrt_go n lo mid f
  end.

Definition icbrt (n : Z) : Z := icbrt_go n 0 (2 ^ 48) 64.

(** FIPS 180-4, 4.2.2 and 5.3.3: the first 32 bits of the fractional parts
    of the cube roots of the first 64 primes, and of the square roots of
    the first 8 primes. *)
Definition K : list Z :=
  Eval vm_compute in map (fun p => w32 (icbrt (p * 2 ^ 96))) (firstn 64 primes).

Definition H0 : list Z :=
  Eval vm_compute in map (fun p => w32 (Z.sqrt (p * 2 ^ 64))) (firstn 8 primes).

(** The 16 big-endian words of a 64-byte block. *)
Fixpoint words (l : list byte) (fuel : nat) : list Z :=
  match fuel with
  | O => []
  | S f => from_bytes_be (firstn 4 l) :: words (skipn 4 l) f
  end.

(** The message schedule: [W[t] = ssig1 W[t-2] + W[t-7] + ssig0 W[t-15] + W[t-16]]. *)
Definition schedule (w16 : list Z) : list Z :=
  fold_left (fun w t =>
      let t := Z.to_nat t in
      w ++ [w32 (ssig1 (nth (t - 2) w 0) + nth (t - 7) w 0
                 + ssig0 (nth (t - 15) w 0) + nth (t - 16) w 0)])
    (map Z.of_nat (seq 16 48)) w16.

Definition round (s : list Z) (kw : Z * Z) : list Z :=
  match s with
  | [a; b; c; d; e; f; g; h] =>
      let t1 := w32 (h + bsig1 e + ch e f g + fst kw + snd kw) in
      let t2 := w32 (bsig0 a + maj a b c) in
      [w32 (t1 + t2); a; b; c; w32 (d + t1); e; f; g]
  | _ => s
  end.

Definition compress (hs : list Z) (block : list byte) : list Z :=
  let s := fold_left round (combine K (schedule (words block 16))) hs in
  map (fun p => w32 (fst p + snd p)) (combine hs s).

Fixpoint blocks (l : list byte) (fuel : nat) : list (list byte) :=
  match fuel with
  | O => []
  | S f => match l with [] => [] | _ => firstn 64 l :: blocks (skipn 64 l) f end
  end.

Definition pad (m : list byte) : list byte :=
  let len := Z.of_nat (length m) in
  m ++ [x80] ++ repeat x00 (Z.to_nat ((55 - len) mod 64)) ++ be_bytes 8 (8 * len).

Definition sha256 (m : list byte) : list byte :=
  let p := pad m in
  flat_map (be_bytes 4) (fold_left compress (blocks p (length p)) H0).

End SHA256.

(** [hash256(b) = sha256(sha256(b))] on a bytes argument. *)
Definition hash256 (b : list byte) : list byte := SHA256.sha256 (SHA256.sha256 b).

(** [hmac.new(key, msg, hashlib.sha256).digest()]. *)
Definition hmac_sha256 (key msg : list byte) : list byte :=
  let k := if (64 <? length key)%nat then SHA256.sha256 key else key in
  let k := k ++ repeat x00 (64 - length k) in
  let xr (c : Z) := map (fun b => byte_of_Z (Z.lxor (bZ b) c)) k in
  SHA256.sha256 (xr 0x5c ++ SHA256.sha256 (xr 0x36 ++ msg)).

(** ASCII bytes of a string literal, as in [b"..."]. *)
Fixpoint ascii_bytes (s : string) : list byte :=
  match s with
  | EmptyString => []
  | String c t => byte_of_Z (Z.of_nat (nat_of_ascii c)) :: ascii_bytes t
  end.

(* ================================================================== *)
(** ** utils/ints.py: modular arithmetic *)

(** [pow(b, e, m)] for a non-negative exponent (every call site passes
    one: [p - 2] for a prime [p], [3], [(p + 1) // 4]); square-and-multiply
    over the bits of [e]. *)
Fixpoint pow_mod_pos (b : Z) (e : positive) (m : Z) : Z :=
  match e with
  | xH => b mod m
  | xO e' => let h := pow_mod_pos b e' m in (h * h) mod m
  | xI e' => let h := pow_mod_pos b e' m in (h * h * b) mod m
  end.

Definition pow_mod (b : Z) (e : N) (m : Z) : Z :=
  match e with N0 => 1 mod m | Npos e' => pow_mod_pos b e' m end.

(** [modulardiv(a, b, p) = (a * pow(b, p-2, p)) % p]. *)
Definition modulardiv (a b p : Z) : Z := (a * pow_mod b (Z.to_N (p - 2)) p) mod p.

(** [modularsqrt(x, p) = pow(x, (p+1)//4, p)]. *)
Definition modularsqrt (x p : Z) : Z := pow_mod x (Z.to_N ((p + 1) / 4)) p.

(* ================================================================== *)
(** ** ecc.py: curves and points *)

(** [Curve(p, a, b)]: [y^2 = x^3 + ax + b (mod p)]. *)
Record Curve : Type := mkCurve { cp : Z; ca : Z; cb : Z }.

(** The dataclass [Point(curve, x, y)]; [None] fields are Python's [None].
    The module-level [INF] is [Point(None, None, None)]; [__rmul__] starts
    from [Point(curve, None, None)]. *)
Record Point : Type := mkPoint { curve : option Curve; px : option Z; py : option Z }.

Definition INF : Point := mkPoint None None None.

Definition opt_eqb (a b : option Z) : bool :=
  match a, b with
  | Some x, Some y => x =? y
  | None, None => true
  | _, _ => false
  end.

(** The dataclass [__eq__] of [Curve] and [Point]: field by field. *)
Definition curve_eqb (c d : Curve) : bool :=
  (cp c =? cp d) && (ca c =? ca d) && (cb c =? cb d).

Definition point_eqb (p q : Point) : bool :=
  match curve p, curve q with
  | Some c, Some d => curve_eqb c d
  | None, None => true
  | _, _ => false
  end && opt_eqb (px p) (px q) && opt_eqb (py p) (py q).

(** [Point.__add__]. [prime = self.curve.p] is evaluated first, so a left
    operand whose curve is [None] raises AttributeError. *)
Definition add (self other : Point) : Res Point :=
  match curve self with
  | None => Err AttributeError
  | Some c =>
      let prime := cp c in
      match px self with
      | None => Ok other
      | Some x1 =>
          match px other with
          | None => Ok self
          | Some x2 =>
              if (x1 =? x2) && negb (opt_eqb (py self) (py other)) then Ok INF
              else
                let* m :=
                  (if x1 =? x2 then
                     match py self with
                     | Some y1 => Ok (modulardiv (3 * x1 ^ 2 + ca c) (2 * y1) prime)
                     | None => Err TypeError
                     end
                   else
                     match py self, py other with
                     | Some y1, Some y2 => Ok (modulardiv (y1 - y2) (x1 - x2) prime)
                     | _, _ => Err TypeError
                     end) in
                match py self with
                | Some y1 =>
                    let rx := (m ^ 2 - x1 - x2) mod prime in
                    let ry := (- (m * (rx - x1) + y1)) mod prime in
                    Ok (mkPoint (Some c) (Some rx) (Some ry))
                | None => Err TypeError
                end
          end
      end
  end.

(** The [while n:] loop of [Point.__rmul__], one iteration per bit of [n]
    from the least significant; [curr += curr] also runs on the last one. *)
Fixpoint rmul_loop (n : positive) (res curr : Point) : Res Point :=
  match n with
  | xH => let* res := add res curr in let* _ := add curr curr in Ok res
  | xO n' => let* curr := add curr curr in rmul_loop n' res curr
  | xI n' =>
      let* res := add res curr in
      let* curr := add curr curr in
      rmul_loop n' res curr
  end.

(** [n * self] for [n >= 0] (a negative [n] never leaves the loop). *)
Definition rmul (n : N) (self : Point) : Res Point :=
  let res := mkPoint (curve self) None None in
  match n with
  | N0 => Ok res
  | Npos p => rmul_loop p res self
  end.

(* ================================================================== *)
(** ** secp256k1.py *)

Module Secp256k1.

Definition P : Z := 0xFFFFFFFFFFFFFFFFFFFFFFFFFFFFFFFFFFFFFFFFFFFFFFFFFFFFFFFEFFFFFC2F.
Definition A : Z := 0.
Definition B : Z := 7.
Definition Gx : Z := 0x79BE667EF9DCBBAC55A06295CE870B07029BFCDB2DCE28D959F2815B16F81798.
Definition Gy : Z := 0x483ada7726a3c4655da4fbfc0e1108a8fd17b448a68554199c47d08ffb10d4b8.
Definition N : Z := 0xFFFFFFFFFFFFFFFFFFFFFFFFFFFFFFFEBAAEDCE6AF48A03BBFD25E8CD0364141.

Definition E : Curve := mkCurve P A B.
Definition G : Point := mkPoint (Some E) (Some Gx) (Some Gy).

End Secp256k1.

(* ================================================================== *)
(** ** The same point arithmetic over machine-word integers ([bigZ]),
    used to evaluate it on 256-bit inputs; [BigSpec.add_spec] and
    [BigSpec.rmul_spec] below show it computes what the [Z] model computes. *)

Module Big.

Record BCurve : Type := mkBCurve { bcp : bigZ; bca : bigZ; bcb : bigZ }.
Record BPoint : Type := mkBPoint { bcurve : option BCurve; bpx : option bigZ; bpy : option bigZ }.

Definition BINF : BPoint := mkBPoint None None None.

Fixpoint pow_mod_pos (b : bigZ) (e : positive) (m : bigZ) : bigZ :=
  match e with
  | xH => BigZ.modulo b m
  | xO e' => let h := pow_mod_pos b e' m in BigZ.modulo (h * h)%bigZ m
  | xI e' => let h := pow_mod_pos b e' m in BigZ.modulo (h * h * b)%bigZ m
  end.

Definition pow_mod (b : bigZ) (e : N) (m : bigZ) : bigZ :=
  match e with N0 => BigZ.modulo 1%bigZ m | Npos e' => pow_mod_pos b e' m end.

Definition modulardiv (a b p : bigZ) : bigZ :=
  BigZ.modulo (a * pow_mod b (Z.to_N (BigZ.to_Z p - 2)) p)%bigZ p.

Definition opt_eqb (a b : option bigZ) : bool :=
  match a, b with
  | Some x, Some y => BigZ.eqb x y
  | None, None => true
  | _, _ => false
  end.

Definition add (self other : BPoint) : Res BPoint :=
  match bcurve self with
  | None => Err AttributeError
  | Some c =>
      let prime := bcp c in
      match bpx self with
      | None => Ok other
      | Some x1 =>
          match bpx other with
          | None => Ok self
          | Some x2 =>
              if BigZ.eqb x1 x2 && negb (opt_eqb (bpy self) (bpy other)) then Ok BINF
              else
                let* m :=
                  (if BigZ.eqb x1 x2 then
                     match bpy self with
                     | Some y1 => Ok (modulardiv (3 * x1 ^ 2 + bca c) (2 * y1) prime)%bigZ
                     | None => Err TypeError
                     end
                   else
                     match bpy self, bpy other with
                     | Some y1, Some y2 => Ok (modulardiv (y1 - y2) (x1 - x2) prime)%bigZ
                     | _, _ => Err TypeError
                     end) in
                match bpy self with
                | Some y1 =>
                    let rx := BigZ.modulo (m ^ 2 - x1 - x2)%bigZ prime in
                    let ry := BigZ.modulo (- (m * (rx - x1) + y1))%bigZ prime in
                    Ok (mkBPoint (Some c) (Some rx) (Some ry))
                | None => Err TypeError
                end
          end
      end
  end.

Fixpoint rmul_loop (n : positive) (res curr : BPoint) : Res BPoint :=
  match n with
  | xH => let* res := add res curr in let* _ := add curr curr in Ok res
  | xO n' => let* curr := add curr curr in rmul_loop n' res curr
  | xI n' =>
      let* res := add res curr in
      let* curr := add curr curr in
      rmul_loop n' res curr
  end.

Definition rmul (n : N) (self : BPoint) : Res BPoint :=
  let res := mkBPoint (bcurve self) None None in
  match n with
  | N0 => Ok res
  | Npos p => rmul_loop p res self
  end.

Definition curve_to_Z (c : BCurve) : Curve :=
  mkCurve (BigZ.to_Z (bcp c)) (BigZ.to_Z (bca c)) (BigZ.to_Z (bcb c)).
Definition curve_of_Z (c : Curve) : BCurve :=
  mkBCurve (BigZ.of_Z (cp c)) (BigZ.of_Z (ca c)) (BigZ.of_Z (cb c)).
Definition to_Z (p : BPoint) : Point :=
  mkPoint (option_map curve_to_Z (bcurve p)) (option_map BigZ.to_Z (bpx p))
          (option_map BigZ.to_Z (bpy p)).
Definition of_Z (p : Point) : BPoint :=
  mkBPoint (option_map curve_of_Z (curve p)) (option_map BigZ.of_Z (px p))
           (option_map BigZ.of_Z (py p)).

(** [R = (u * G) + (v * p)] over [bigZ]. *)
Definition verify_point (u v : N) (p : BPoint) : Res BPoint :=
  let* uG := rmul u (of_Z Secp256k1.G) in
  let* vP := rmul v p in
  add uG vP.

(** [r] is [Ok q] once read back into [Z]; decided inside the match, so that
    it can be evaluated without building the [Z] point. *)
Definition res_is (r : Res BPoint) (q : Point) : bool :=
  match r with Ok b => point_eqb (to_Z b) q | Err _ => false end.

End Big.

(* ================================================================== *)
(** ** Curve membership *)

(** [y^2 = x^3 + ax + b (mod p)], the equation of [Curve]. *)
Definition on_curve (c : Curve) (x y : Z) : bool :=
  (y ^ 2 - (x ^ 3 + ca c * x + cb c)) mod cp c =? 0.

(* ================================================================== *)
(** ** ecdsa.py: RFC-6979 nonces *)

(** The two update rounds [for i in [b"\x00", b"\x01"]]. *)
Definition rfc6979_rounds (k v sk z : list byte) : list byte * list byte :=
  fold_left (fun kv i =>
      let k := hmac_sha256 (fst kv) (snd kv ++ [i] ++ sk ++ z) in
      (k, hmac_sha256 k (snd kv)))
    [x00; x01] (k, v).

(** The [while True] candidate loop; [None] when [fuel] iterations did not
    reach a candidate in [[1, N)] (the source keeps looping). *)
Fixpoint rfc6979_loop (fuel : nat) (k v : list byte) : option Z :=
  match fuel with
  | O => None
  | S f =>
      let v := hmac_sha256 k v in
      let cand := from_bytes_be v in
      if (1 <=? cand) && (cand <? Secp256k1.N) then Some cand
      else
        let k := hmac_sha256 k (v ++ [x00]) in
        let v := hmac_sha256 k v in
        rfc6979_loop f k v
  end.

(** [rfc6979(sk, z)]: [k = b"0x00" * 32] and [v = b"0x01" * 32] are the
    128-byte ASCII strings of the source; [z] is reduced when [z > N]. *)
Definition rfc6979 (fuel : nat) (sk z : Z) : Res (option Z) :=
  let k := concat (repeat (ascii_bytes "0x00") 32) in
  let v := concat (repeat (ascii_bytes "0x01") 32) in
  let z := if z >? Secp256k1.N then z - Secp256k1.N else z in
  let* zb := to_bytes_be z 32 in
  let* skb := to_bytes_be sk 32 in
  let kv := rfc6979_rounds k v skb zb in
  Ok (rfc6979_loop fuel (fst kv) (snd kv)).

(** The nonce as the specification's steps describe it (section 4.G):
    [V := 0x01 * 32], [K := 0x00 * 32] (32 bytes each), [z := z - n] when
    [z >= n]; the update rounds and the loop are the ones above. *)
Definition rfc6979_spec (fuel : nat) (e z : Z) : Res (option Z) :=
  let z := if z >=? Secp256k1.N then z - Secp256k1.N else z in
  let* zb := to_bytes_be z 32 in
  let* eb := to_bytes_be e 32 in
  let kv := rfc6979_rounds (repeat x00 32) (repeat x01 32) eb zb in
  Ok (rfc6979_loop fuel (fst kv) (snd kv)).

(* ================================================================== *)
(** ** ecdsa.py: verification *)

(** [R = (u * G) + (v * p)]. *)
Definition verify_point (u v : N) (p : Point) : Res Point :=
  let* uG := rmul u Secp256k1.G in
  let* vP := rmul v p in
  add uG vP.

(** [validate_signature(p, message, Signature(r, s))]. *)
Definition validate_signature (p : Point) (message : list byte) (r s : Z) : Res bool :=
  let* _ := py_assert ((1 <=? r) && (r <=? Secp256k1.N)) in
  let* _ := py_assert ((1 <=? s) && (s <=? Secp256k1.N)) in
  let z := from_bytes_be (hash256 message) in
  let u := modulardiv z s Secp256k1.N in
  let v := modulardiv r s Secp256k1.N in
  let* R := verify_point (Z.to_N u) (Z.to_N v) p in
  Ok (opt_eqb (px R) (Some r)).

(* ================================================================== *)
(** ** ecdsa.py: DER encoding of signatures *)

(** [rbin[0] >= 0x80] and the [0x00] prefix; IndexError on an empty [rbin]. *)
Definition der_pad (bin : list byte) : Res (list byte) :=
  match bin with
  | [] => Err IndexError
  | b0 :: _ => Ok (if 0x80 <=? bZ b0 then x00 :: bin else bin)
  end.

(** [Signature(r, s).encode()]. *)
Definition sig_encode (r s : Z) : Res (list byte) :=
  let* rbin := to_bytes_be r 32 in
  let rbin := lstrip0 rbin in
  let* sbin := to_bytes_be s 32 in
  let sbin := lstrip0 sbin in
  let* rbin := der_pad rbin in
  let* sbin := der_pad sbin in
  let* hr := py_bytes [0x02; Z.of_nat (length rbin)] in
  let* hs := py_bytes [0x02; Z.of_nat (length sbin)] in
  let res := hr ++ rbin ++ hs ++ sbin in
  let* h := py_bytes [0x30; Z.of_nat (length res)] in
  Ok (h ++ res).

(** A [BytesIO] is the list of its unread bytes; [read(n)]. *)
Definition read (n : nat) (st : list byte) : list byte * list byte :=
  (firstn n st, skipn n st).

(** [b.read(1)[0]]: IndexError on an exhausted stream. *)
Definition read_byte0 (st : list byte) : Res (Z * list byte) :=
  match st with
  | [] => Err IndexError
  | b :: t => Ok (bZ b, t)
  end.

(** [Signature.decode(sig_bytes)]. *)
Definition sig_decode (sig_bytes : list byte) : Res (Z * Z) :=
  let len := Z.of_nat (length sig_bytes) in
  let* p := read_byte0 sig_bytes in
  let* _ := py_assert (fst p =? 0x30) in
  let* p := read_byte0 (snd p) in
  let length := fst p in
  let* _ := py_assert (length =? len - 3) in
  let* p := read_byte0 (snd p) in
  let* _ := py_assert (fst p =? 0x02) in
  let* p := read_byte0 (snd p) in
  let rlength := fst p in
  let q := read (Z.to_nat rlength) (snd p) in
  let r := from_bytes_be (fst q) in
  let* p := read_byte0 (snd q) in
  let* _ := py_assert (fst p =? 0x02) in
  let* p := read_byte0 (snd p) in
  let slength := fst p in
  let q := read (Z.to_nat slength) (snd p) in
  let s := from_bytes_be (fst q) in
  let* _ := py_assert (len =? 7 + rlength + slength) in
  Ok (r, s).

(* ================================================================== *)
(** ** utils/ints.py: integer codecs *)

(** [encode_int(i, n, encoding) = i.to_bytes(n, encoding)]. *)
Definition encode_int (i : Z) (n : nat) (enc : Endian) : Res (list byte) :=
  to_bytes i n enc.

(** [decode_int(s, nbytes, encoding)] on a stream: the integer of
    [s.read(nbytes)], and the unread rest of the stream. *)
Definition decode_int (s : list byte) (nbytes : nat) (enc : Endian) : Res (Z * list byte) :=
  let q := read nbytes s in
  Ok (from_bytes (fst q) enc, snd q).

(** [encode_varint(i)]. *)
Definition encode_varint (i : Z) : Res (list byte) :=
  if i <? 0xfd then py_bytes [i]
  else if i <? 0x10000 then let* e := encode_int i 2 Little in Ok (xfd :: e)
  else if i <? 0x100000000 then let* e := encode_int i 4 Little in Ok (xfe :: e)
  else if i <? 0x10000000000000000 then let* e := encode_int i 8 Little in Ok (xff :: e)
  else Err ValueError.

(* ================================================================== *)
(** ** script/script.py: encoding *)

(** A command of [Script.commands]: an [int] opcode or a [bytes] push. *)
Inductive Cmd : Type :=
| Op (i : Z)
| Push (b : list byte).

(** One iteration of the loop of [Script.encode]. *)
Definition encode_cmd (cmd : Cmd) : Res (list byte) :=
  match cmd with
  | Op i => encode_int i 1 Little
  | Push b =>
      let cmd_len := Z.of_nat (length b) in
      let* pre :=
        (if cmd_len <? 75 then encode_int cmd_len 1 Little
         else if (76 <=? cmd_len) && (cmd_len <=? 255) then
           let* o := encode_int 76 1 Little in
           let* l := encode_int cmd_len 1 Little in Ok (o ++ l)
         else if (256 <=? cmd_len) && (cmd_len <=? 520) then
           let* o := encode_int 77 1 Little in
           let* l := encode_int cmd_len 2 Little in Ok (o ++ l)
         else Err ValueError) in
      Ok (pre ++ b)
  end.

Fixpoint encode_cmds (cmds : list Cmd) : Res (list byte) :=
  match cmds with
  | [] => Ok []
  | c :: t => let* e := encode_cmd c in let* r := encode_cmds t in Ok (e ++ r)
  end.

(** [Script(commands).encode()]. *)
Definition script_encode (cmds : list Cmd) : Res (list byte) :=
  let* ret := encode_cmds cmds in
  let* l := encode_varint (Z.of_nat (length ret)) in
  Ok (l ++ ret).

(* ================================================================== *)
(** ** merkle.py *)

#[local] Set Warnings "-register-all".

(** The Python values the Merkle code handles. *)
Inductive PyVal : Type :=
| PyBytes (b : list byte)
| PyStr (s : string)
| PyList (l : list PyVal).

Definition hexval (c : ascii) : option Z :=
  let n := Z.of_nat (nat_of_ascii c) in
  if (48 <=? n) && (n <=? 57) then Some (n - 48)
  else if (97 <=? n) && (n <=? 102) then Some (n - 87)
  else if (65 <=? n) && (n <=? 70) then Some (n - 55)
  else None.

Definition is_ascii_space (c : ascii) : bool :=
  let n := nat_of_ascii c in
  (n =? 32)%nat || ((9 <=? n)%nat && (n <=? 13)%nat).

(** [bytes.fromhex(s)]: pairs of hex digits, ASCII whitespace skipped
    between pairs, ValueError otherwise. *)
Fixpoint fromhex (s : string) : Res (list byte) :=
  match s with
  | EmptyString => Ok []
  | String c1 t =>
      if is_ascii_space c1 then fromhex t
      else match t with
           | EmptyString => Err ValueError
           | String c2 t' =>
               match hexval c1, hexval c2 with
               | Some a, Some b =>
                   let* r := fromhex t' in Ok (byte_of_Z (16 * a + b) :: r)
               | _, _ => Err ValueError
               end
           end
  end.

(** The body of [get_merkle_parent]: [hash256(h1 + h2)] over the pairs
    [hashes[i], hashes[i+1]] for [i in range(0, len(hashes)-1, 2)]. *)
Fixpoint merkle_pairs (hashes : list PyVal) (as_hex : bool) : Res (list PyVal) :=
  match hashes with
  | h1 :: h2 :: t =>
      let* b :=
        (match h1, h2 with
         | PyStr s1, PyStr s2 =>
             let* b1 := fromhex s1 in let* b2 := fromhex s2 in Ok (b1 ++ b2)
         | PyStr _, _ => Err TypeError
         | PyBytes b1, PyBytes b2 => Ok (b1 ++ b2)
         | _, _ => Err TypeError
         end) in
      let new_hash := hash256 b in
      let* rest := merkle_pairs t as_hex in
      Ok ((if as_hex then PyStr (hex_of_bytes new_hash) else PyBytes new_hash) :: rest)
  | _ => Ok []
  end.

(** [get_merkle_parent(hashes)], with its default [as_hex=True]. *)
Definition get_merkle_parent (hashes : list PyVal) : Res (list PyVal) :=
  merkle_pairs hashes true.

(** [MerkleTree(tree)]: [self.root = tree[0][::-1]]. *)
Record MerkleTree : Type := mkMerkleTree { tree : list (list PyVal); root : PyVal }.

Definition MerkleTree_init (t : list (list PyVal)) : Res MerkleTree :=
  match t with
  | [] => Err IndexError
  | top :: _ => Ok (mkMerkleTree t (PyList (rev top)))
  end.

(** The [while True] loop of [construct], on the list of levels built so
    far (last level first); [None] when [fuel] runs out (an empty level
    makes the source loop forever). *)
Fixpoint construct_loop (fuel : nat) (levels : list (list PyVal)) : Res (option (list (list PyVal))) :=
  match fuel with
  | O => Ok None
  | S f =>
      match levels with
      | [] => Err IndexError
      | curr :: _ =>
          if (length curr =? 1)%nat then Ok (Some levels)
          else let* parent := get_merkle_parent curr in construct_loop f (parent :: levels)
      end
  end.

Fixpoint map_res {A B} (f : A -> Res B) (l : list A) : Res (list B) :=
  match l with
  | [] => Ok []
  | a :: t => let* b := f a in let* r := map_res f t in Ok (b :: r)
  end.

(** [MerkleTree.construct(hashes)]. *)
Definition construct (hashes : list string) : Res (option MerkleTree) :=
  let* hs := map_res (fun h => let* b := fromhex h in Ok (PyBytes (rev b))) hashes in
  let hs := if Nat.odd (length hs) then hs ++ [last hs (PyBytes [])] else hs in
  let* levels := construct_loop (S (length hs)) [hs] in
  match levels with
  | None => Ok None
  | Some lv => let* t := MerkleTree_init lv in Ok (Some t)
  end.

(* ================================================================== *)
(** ** keys.py: SEC decoding *)

(** [PublicKey.decode(b)]. *)
Definition pubkey_decode (b : list byte) : Res Point :=
  match b with
  | [] => Err IndexError
  | b0 :: rest =>
      if bZ b0 =? 4 then
        let x := from_bytes_be (firstn 32 rest) in
        let y := from_bytes_be (firstn 32 (skipn 32 rest)) in
        Ok (mkPoint (Some Secp256k1.E) (Some x) (Some y))
      else if (bZ b0 =? 2) || (bZ b0 =? 3) then
        let even := bZ b0 =? 2 in
        let x := from_bytes_be rest in
        let y2 := (pow_mod x 3 Secp256k1.P + 7) mod Secp256k1.P in
        let y := modularsqrt y2 Secp256k1.P in
        let y_even := y mod 2 =? 0 in
        let y := if Bool.eqb even y_even then y else Secp256k1.P - y in
        Ok (mkPoint (Some Secp256k1.E) (Some x) (Some y))
      else Err ValueError
  end.

(* ================================================================== *)
(** ** Concrete inputs *)

(** A curve over a small prime, of the kind [Curve] is built for in
    tests: [y^2 = x^3 + 1 (mod 7)], with the point [(6, 0)] on it. *)
Definition toy : Curve := mkCurve 7 0 1.
Definition toy_pt : Point := mkPoint (Some toy) (Some 6) (Some 0).

(** Python's [s * n] on a string. *)
Fixpoint str_rep (s : string) (n : nat) : string :=
  match n with O => EmptyString | S n' => append s (str_rep s n') end.

(** The shape of a DER signature: [0x30 len 0x02 rlen r 0x02 slen s]. *)
Definition der_bytes (rb sb : list byte) : list byte :=
  [byte_of_Z 0x30; byte_of_Z (Z.of_nat (4 + length rb + length sb));
   byte_of_Z 0x02; byte_of_Z (Z.of_nat (length rb))] ++ rb ++
  [byte_of_Z 0x02; byte_of_Z (Z.of_nat (length sb))] ++ sb.

(* ================================================================== *)
(** ** utils/ints.py: [decode_varint] *)

(** [decode_varint(s)] on a stream [s] (the [BytesIO] that [Script.decode]
    passes): a prefix byte [0xfd], [0xfe], [0xff] announces a 2-, 4- or
    8-byte little-endian integer; any other byte is the value. *)
Definition decode_varint (s : list byte) : Res (Z * list byte) :=
  let* p := decode_int s 1 Little in
  let i := fst p in
  let s := snd p in
  if i =? 0xfd then decode_int s 2 Little
  else if i =? 0xfe then decode_int s 4 Little
  else if i =? 0xff then decode_int s 8 Little
  else Ok (i, s).

(* ================================================================== *)
(** ** script/script.py: decoding and P2PKH *)

(** The [while i < l] loop of [Script.decode] on the stream [st]; [None]
    when [fuel] runs out ([i] grows by at least 1 per iteration, so [l]
    iterations suffice). *)
Fixpoint script_decode_loop (fuel : nat) (l i : Z) (st : list byte) (cmds : list Cmd)
  : option (list Cmd * list byte) :=
  if i <? l then
    match fuel with
    | O => None
    | S f =>
        let q := read 1 st in
        let curr := from_bytes_be (fst q) in
        let st := snd q in
        if (1 <=? curr) && (curr <=? 75) then
          let q := read (Z.to_nat curr) st in
          script_decode_loop f l (i + curr + 1) (snd q) (cmds ++ [Push (fst q)])
        else if curr =? 76 then
          let q := read 1 st in
          let datalen := from_bytes_le (fst q) in
          let q' := read (Z.to_nat datalen) (snd q) in
          script_decode_loop f l (i + datalen + 1) (snd q') (cmds ++ [Push (fst q')])
        else if curr =? 77 then
          let q := read 2 st in
          let datalen := from_bytes_le (fst q) in
          let q' := read (Z.to_nat datalen) (snd q) in
          script_decode_loop f l (i + datalen + 1) (snd q') (cmds ++ [Push (fst q')])
        else script_decode_loop f l (i + 1) st (cmds ++ [Op curr])
    end
  else Some (cmds, st).

(** [Script.decode(b)]: the commands and the unread rest of the stream. *)
Definition script_decode (b : list byte) : option (list Cmd * list byte) :=
  match decode_varint b with
  | Err _ => None
  | Ok (l, st) =>
      if l =? 0 then Some ([], st)
      else script_decode_loop (Z.to_nat l) l 0 st []
  end.

(** [p2pkh_script(pkhash)]: [OP_DUP OP_HASH160 <pkhash> OP_EQUALVERIFY
    OP_CHECKSIG]. *)
Definition p2pkh_script (pkhash : list byte) : Res (list Cmd) :=
  let* _ := py_assert (length pkhash =? 20)%nat in
  Ok [Op 118; Op 169; Push pkhash; Op 136; Op 172].

(* ================================================================== *)
(** ** keys.py: SEC encoding *)

(** [PublicKey.encode(compressed)] with [hash_160=False]. In the
    compressed form [self.y % 2] is evaluated first (TypeError on [None]);
    [None.to_bytes] is an AttributeError. *)
Definition pubkey_encode (p : Point) (compressed : bool) : Res (list byte) :=
  if compressed then
    match py p with
    | None => Err TypeError
    | Some y =>
        let prefix := if y mod 2 =? 0 then x02 else x03 in
        match px p with
        | None => Err AttributeError
        | Some x => let* xb := to_bytes_be x 32 in Ok (prefix :: xb)
        end
    end
  else
    match px p with
    | None => Err AttributeError
    | Some x =>
        let* xb := to_bytes_be x 32 in
        match py p with
        | None => Err AttributeError
        | Some y => let* yb := to_bytes_be y 32 in Ok (x04 :: xb ++ yb)
        end
    end.

(* ================================================================== *)
(** ** utils/base58.py *)

(** A Python [str] as its list of characters. *)
Definition BASE58_CHARS : list ascii :=
  list_ascii_of_string "123456789ABCDEFGHJKLMNPQRSTUVWXYZabcdefghijkmnopqrstuvwxyz".

(** [s.index(c)]: the first position of [c], ValueError when absent. *)
Fixpoint str_index (c : ascii) (s : list ascii) : Res Z :=
  match s with
  | [] => Err ValueError
  | d :: t => if Ascii.eqb c d then Ok 0 else let* k := str_index c t in Ok (k + 1)
  end.

(** The [while n > 0] loop of [encode]; [fuel] bounds the number of
    digits (see [b58_fuel]). *)
Fixpoint b58_loop (fuel : nat) (n : Z) (res : list ascii) : list ascii :=
  match fuel with
  | O => res
  | S f =>
      if 0 <? n then
        b58_loop f (n / 58) (nth (Z.to_nat (n mod 58)) BASE58_CHARS "1"%char :: res)
      else res
  end.

(** Enough iterations: [58^(log2 n + 1) > n]. *)
Definition b58_fuel (n : Z) : nat := Z.to_nat (Z.log2 n + 1).

(** [base58.encode(b)]. *)
Definition b58_encode (b : list byte) : list ascii :=
  let n_lead_zeros := (length b - length (lstrip0 b))%nat in
  let n := from_bytes_be b in
  repeat "1"%char n_lead_zeros ++ b58_loop (b58_fuel n) n [].

(** [base58.checksum(b) = hash256(b)[:4]]. *)
Definition b58_checksum (b : list byte) : list byte := firstn 4 (hash256 b).

Definition bytes_eqb (a b : list byte) : bool :=
  (length a =? length b)%nat && forallb (fun p => Byte.eqb (fst p) (snd p)) (combine a b).

(** The [for c in s] loop of [decode]. *)
Fixpoint b58_value (n : Z) (s : list ascii) : Res Z :=
  match s with
  | [] => Ok n
  | c :: t => let* k := str_index c BASE58_CHARS in b58_value (n * 58 + k) t
  end.

(** [base58.decode(s, payload_only, wif, wif_compressed)]. *)
Definition b58_decode (s : list ascii) (payload_only wif wif_compressed : bool)
  : Res (list byte) :=
  let num_bytes : nat := (if wif then (if wif_compressed then 38 else 37) else 25)%nat in
  let* n := b58_value 0 s in
  let* nb := to_bytes_be n num_bytes in
  let* _ := py_assert (bytes_eqb (firstn 4 (hash256 (firstn (num_bytes - 4) nb)))
                                 (skipn (num_bytes - 4) nb)) in
  if payload_only then Ok (firstn (num_bytes - 5) (skipn 1 nb)) else Ok nb.

(* ================================================================== *)
(** ** Predicates of the statements below *)

(** The bytes [encode_int i n e] writes when it succeeds. *)
Definition endian_bytes (i : Z) (n : nat) (e : Endian) : list byte :=
  match e with Big => be_bytes n i | Little => rev (be_bytes n i) end.

(** The commands [Script.decode] reads back as they were written: opcodes
    in [0, 256) that are not push prefixes, and pushes of 1 to 74 bytes. *)
Definition simple_cmd (c : Cmd) : bool :=
  match c with
  | Op i => (0 <=? i) && (i <? 256) && negb ((1 <=? i) && (i <=? 77))
  | Push b => (1 <=? length b)%nat && (length b <=? 74)%nat
  end.

(** A Merkle level of byte strings, or of the hex strings [get_merkle_parent] returns. *)
Definition all_bytes (l : list PyVal) : Prop := Forall (fun v => exists b, v = PyBytes b) l.

Definition all_hex (l : list PyVal) : Prop :=
  Forall (fun v => exists b, v = PyStr (hex_of_bytes b)) l.

(* ================================================================== *)
(** ** block.py *)

(** The header fields of [Block]; [tx_hashes], which [encode] and
    [decode] do not touch, is left out. *)
Record Block : Type := mkBlock {
  bversion : Z; prev_block : list byte; merkle_root : list byte;
  timestamp : Z; bits : list byte; nonce : list byte }.

(** [Block.encode()]: the 80-byte header. *)
Definition block_encode (blk : Block) : Res (list byte) :=
  let* v := encode_int (bversion blk) 4 Little in
  let* t := encode_int (timestamp blk) 4 Little in
  Ok (v ++ rev (prev_block blk) ++ rev (merkle_root blk) ++ t ++ bits blk ++ nonce blk).

(** [Block.decode(b)] on a stream: the block and the unread rest. *)
Definition block_decode (b : list byte) : Res (Block * list byte) :=
  let* p := decode_int b 4 Little in
  let q1 := read 32 (snd p) in
  let q2 := read 32 (snd q1) in
  let* p2 := decode_int (snd q2) 4 Little in
  let q3 := read 4 (snd p2) in
  let q4 := read 4 (snd q3) in
  Ok (mkBlock (fst p) (rev (fst q1)) (rev (fst q2)) (fst p2) (fst q3) (fst q4), snd q4).

(* ================================================================== *)
(** ** tx.py *)

(** The dicts of [Tx.inputs] and [Tx.outputs], with their fixed keys;
    a [Script] is its list of commands. *)
Record TxIn : Type := mkTxIn {
  prev_tx : list byte; prev_idx : Z; script_sig : list Cmd; seq : Z }.
Record TxOut : Type := mkTxOut { amount : Z; script_pubkey : list Cmd }.
Record Tx : Type := mkTx {
  tx_version : Z; inputs : list TxIn; outputs : list TxOut; locktime : Z }.

(** One iteration of the loop of [Tx.encode_inputs]. *)
Definition encode_input (sig_idx idx : Z) (inp : TxIn) : Res (list byte) :=
  let* ss := (if (sig_idx =? -1) || (sig_idx =? idx)
              then script_encode (script_sig inp) else script_encode []) in
  let* pi := encode_int (prev_idx inp) 4 Little in
  let* sq := encode_int (seq inp) 4 Little in
  Ok (rev (prev_tx inp) ++ pi ++ ss ++ sq).

Fixpoint encode_inputs_from (sig_idx idx : Z) (ins : list TxIn) : Res (list byte) :=
  match ins with
  | [] => Ok []
  | inp :: t =>
      let* e := encode_input sig_idx idx inp in
      let* r := encode_inputs_from sig_idx (idx + 1) t in Ok (e ++ r)
  end.

(** [Tx.encode_inputs(sig_idx)]. *)
Definition encode_inputs (tx : Tx) (sig_idx : Z) : Res (list byte) :=
  encode_inputs_from sig_idx 0 (inputs tx).

Fixpoint encode_outputs_list (outs : list TxOut) : Res (list byte) :=
  match outs with
  | [] => Ok []
  | o :: t =>
      let* a := encode_int (amount o) 8 Little in
      let* s := script_encode (script_pubkey o) in
      let* r := encode_outputs_list t in Ok (a ++ s ++ r)
  end.

(** [Tx.encode_outputs()]. *)
Definition encode_outputs (tx : Tx) : Res (list byte) := encode_outputs_list (outputs tx).

(** [Tx.encode(sig_idx)]. *)
Definition tx_encode (tx : Tx) (sig_idx : Z) : Res (list byte) :=
  let* v := encode_int (tx_version tx) 4 Little in
  let* ni := encode_varint (Z.of_nat (length (inputs tx))) in
  let* ei := encode_inputs tx sig_idx in
  let* no := encode_varint (Z.of_nat (length (outputs tx))) in
  let* eo := encode_outputs tx in
  let* lt := encode_int (locktime tx) 4 Little in
  let* sh := (if negb (sig_idx =? -1) then encode_int 1 4 Little else Ok []) in
  Ok (v ++ ni ++ ei ++ no ++ eo ++ lt ++ sh).

(** Decoding threads [Script.decode], whose loop runs on fuel: [None] is
    the fuel running out, [Some (Err e)] a raised exception. *)
Definition dbind {A B} (m : option (Res A)) (f : A -> option (Res B)) : option (Res B) :=
  match m with
  | None => None
  | Some (Err e) => Some (Err e)
  | Some (Ok a) => f a
  end.

Notation "'let+' x ':=' m 'in' k" := (dbind m (fun x => k))
  (at level 200, x name, m at level 100, k at level 200).

Definition dres {A} (r : Res A) : option (Res A) := Some r.

Definition dopt {A} (o : option A) : option (Res A) :=
  match o with None => None | Some a => Some (Ok a) end.

(** The [for n in range(num_inputs)] loop of [Tx.decode]. *)
Fixpoint decode_inputs (n : nat) (st : list byte) : option (Res (list TxIn * list byte)) :=
  match n with
  | O => Some (Ok ([], st))
  | S n' =>
      let q := read 32 st in
      let+ p := dres (decode_int (snd q) 4 Little) in
      let+ sc := dopt (script_decode (snd p)) in
      let+ s := dres (decode_int (snd sc) 4 Little) in
      let+ r := decode_inputs n' (snd s) in
      Some (Ok (mkTxIn (rev (fst q)) (fst p) (fst sc) (fst s) :: fst r, snd r))
  end.

(** The [for n in range(num_outputs)] loop of [Tx.decode]. *)
Fixpoint decode_outputs (n : nat) (st : list byte) : option (Res (list TxOut * list byte)) :=
  match n with
  | O => Some (Ok ([], st))
  | S n' =>
      let+ a := dres (decode_int st 8 Little) in
      let+ sc := dopt (script_decode (snd a)) in
      let+ r := decode_outputs n' (snd sc) in
      Some (Ok (mkTxOut (fst a) (fst sc) :: fst r, snd r))
  end.

(** The items of one witness: [item_len = decode_varint(b)], then [0] or
    [b.read(item_len)]; the items are not kept, only the stream moves. *)
Fixpoint witness_items (n : nat) (st : list byte) : Res (list byte) :=
  match n with
  | O => Ok st
  | S n' =>
      let* p := decode_varint st in
      if fst p =? 0 then witness_items n' (snd p)
      else witness_items n' (snd (read (Z.to_nat (fst p)) (snd p)))
  end.

Fixpoint witnesses (ins : list TxIn) (st : list byte) : Res (list byte) :=
  match ins with
  | [] => Ok st
  | _ :: t =>
      let* p := decode_varint st in
      let* st := witness_items (Z.to_nat (fst p)) (snd p) in
      witnesses t st
  end.

(** [Tx.decode(b)] on a stream: the transaction and the unread rest. *)
Definition tx_decode (b : list byte) : option (Res (Tx * list byte)) :=
  let+ v := dres (decode_int b 4 Little) in
  let+ n := dres (decode_varint (snd v)) in
  let+ sn := dres (if fst n =? 0 then
                     let q := read 1 (snd n) in
                     let* _ := py_assert (bytes_eqb (fst q) [x01]) in
                     let* n := decode_varint (snd q) in
                     Ok (true, n)
                   else Ok (false, n)) in
  let+ ins := decode_inputs (Z.to_nat (fst (snd sn))) (snd (snd sn)) in
  let+ no := dres (decode_varint (snd ins)) in
  let+ outs := decode_outputs (Z.to_nat (fst no)) (snd no) in
  let+ st := dres (if fst sn then witnesses (fst ins) (snd outs) else Ok (snd outs)) in
  let+ lt := dres (decode_int st 4 Little) in
  Some (Ok (mkTx (fst v) (fst ins) (fst outs) (fst lt), snd lt)).

(** ** Predicates on transactions *)

(** Scripts [Script.decode] reads back: simple commands, and not so many
    that the encoding outgrows a varint. *)
Definition simple_script (cmds : list Cmd) : bool :=
  forallb simple_cmd cmds && (Z.of_nat (length cmds) * 75 <? 2 ^ 64).

Definition tx_input_ok (inp : TxIn) : bool :=
  (length (prev_tx inp) =? 32)%nat && (0 <=? prev_idx inp) && (prev_idx inp <? 2 ^ 32) &&
  simple_script (script_sig inp) && (0 <=? seq inp) && (seq inp <? 2 ^ 32).

Definition tx_output_ok (o : TxOut) : bool :=
  (0 <=? amount o) && (amount o <? 2 ^ 64) && simple_script (script_pubkey o).

(** A sample input and transaction. *)
Definition sample_input (sc : list Cmd) : TxIn := mkTxIn (repeat x07 32) 1 sc 0xffffffff.

Definition sample_tx : Tx :=
  mkTx 1 [sample_input [Push [x02; x03]; Op 0xac]] [mkTxOut 5000 [Op 0x76; Push [x01]]] 0.

(* ================================================================== *)
(** * Proofs *)

(** ** SHA-256 and HMAC-SHA256 against published test vectors *)

Example sha256_abc :
  hex_of_bytes (SHA256.sha256 (ascii_bytes "abc")) =
  "ba7816bf8f01cfea414140de5dae2223b00361a396177a9cb410ff61f20015ad"%string.
Proof. vm_compute. reflexivity. Qed.

Example sha256_100a :
  hex_of_bytes (SHA256.sha256 (repeat x61 100)) =
  "2816597888e4a0d3a36b82b83316ab32680eb8f00f8cd3b904d681246d285a0e"%string.
Proof. vm_compute. reflexivity. Qed.

Example hmac_long_key :
  hex_of_bytes (hmac_sha256 (concat (repeat (ascii_bytes "0x00") 32)) (ascii_bytes "hi")) =
  "00b361f029a33f2400ea0789986db03bc34b0a2c51e6e504e67da2929eec8161"%string.
Proof. vm_compute. reflexivity. Qed.

(** ** The bigZ twin computes what the Z model computes *)

Module BigSpec.

Lemma pow_mod_pos_spec (b m : bigZ) (e : positive) :
  BigZ.to_Z (Big.pow_mod_pos b e m) = pow_mod_pos (BigZ.to_Z b) e (BigZ.to_Z m).
Proof.
  induction e as [e IH | e IH |]; simpl;
    rewrite ?BigZ.spec_modulo, ?BigZ.spec_mul, ?IH; reflexivity.
Qed.

Lemma pow_mod_spec (b m : bigZ) (e : N) :
  BigZ.to_Z (Big.pow_mod b e m) = pow_mod (BigZ.to_Z b) e (BigZ.to_Z m).
Proof.
  destruct e as [|e]; simpl.
  - rewrite BigZ.spec_modulo. reflexivity.
  - apply pow_mod_pos_spec.
Qed.

Lemma modulardiv_spec (a b p : bigZ) :
  BigZ.to_Z (Big.modulardiv a b p) =
  modulardiv (BigZ.to_Z a) (BigZ.to_Z b) (BigZ.to_Z p).
Proof.
  unfold Big.modulardiv, modulardiv.
  rewrite BigZ.spec_modulo, BigZ.spec_mul, pow_mod_spec. reflexivity.
Qed.

Lemma opt_eqb_spec (a b : option bigZ) :
  Big.opt_eqb a b = opt_eqb (option_map BigZ.to_Z a) (option_map BigZ.to_Z b).
Proof.
  destruct a, b; simpl; try reflexivity. apply BigZ.spec_eqb.
Qed.

Lemma to_Z_3 : BigZ.to_Z 3 = 3. Proof. reflexivity. Qed.
Lemma to_Z_2 : BigZ.to_Z 2 = 2. Proof. reflexivity. Qed.

Create Rewrite HintDb bigz.
#[local] Hint Rewrite BigZ.spec_add BigZ.spec_sub BigZ.spec_mul BigZ.spec_opp
  BigZ.spec_pow BigZ.spec_modulo modulardiv_spec to_Z_3 to_Z_2 : bigz.

Lemma add_spec (p q : Big.BPoint) :
  res_map Big.to_Z (Big.add p q) = add (Big.to_Z p) (Big.to_Z q).
Proof.
  destruct p as [[c|] [x1|] y1], q as [c' [x2|] y2];
    unfold Big.add, add;
    cbn [Big.to_Z Big.bcurve Big.bpx Big.bpy curve px py option_map res_map].
  all: try reflexivity.
  rewrite BigZ.spec_eqb, opt_eqb_spec.
  destruct (BigZ.to_Z x1 =? BigZ.to_Z x2); cbn [andb negb].
  - destruct (opt_eqb _ _); cbn [negb]; [|reflexivity].
    destruct y1 as [y1|]; cbn [option_map bind res_map]; [|reflexivity].
    unfold Big.to_Z; cbn [Big.bcurve Big.bpx Big.bpy option_map Big.curve_to_Z ca cp].
    autorewrite with bigz. reflexivity.
  - destruct y1 as [y1|], y2 as [y2|]; cbn [option_map bind res_map]; try reflexivity.
    unfold Big.to_Z; cbn [Big.bcurve Big.bpx Big.bpy option_map Big.curve_to_Z ca cp].
    autorewrite with bigz. reflexivity.
Qed.

Lemma rmul_loop_spec (n : positive) (res curr : Big.BPoint) :
  res_map Big.to_Z (Big.rmul_loop n res curr) =
  rmul_loop n (Big.to_Z res) (Big.to_Z curr).
Proof.
  revert res curr.
  induction n as [n IH | n IH |]; intros res curr;
    cbn [Big.rmul_loop rmul_loop].
  - rewrite <- (add_spec res curr).
    destruct (Big.add res curr) as [r|e]; cbn [res_map bind]; [|reflexivity].
    rewrite <- (add_spec curr curr).
    destruct (Big.add curr curr) as [c|e]; cbn [res_map bind]; [apply IH | reflexivity].
  - rewrite <- (add_spec curr curr).
    destruct (Big.add curr curr) as [c|e]; cbn [res_map bind]; [apply IH | reflexivity].
  - rewrite <- (add_spec res curr).
    destruct (Big.add res curr) as [r|e]; cbn [res_map bind]; [|reflexivity].
    rewrite <- (add_spec curr curr).
    destruct (Big.add curr curr) as [c|e]; reflexivity.
Qed.

Lemma rmul_spec (n : N) (p : Big.BPoint) :
  res_map Big.to_Z (Big.rmul n p) = rmul n (Big.to_Z p).
Proof.
  destruct n as [|n]; simpl.
  - reflexivity.
  - apply (rmul_loop_spec n (Big.mkBPoint (Big.bcurve p) None None) p).
Qed.

Lemma curve_to_of_Z (c : Curve) : Big.curve_to_Z (Big.curve_of_Z c) = c.
Proof.
  destruct c; unfold Big.curve_to_Z, Big.curve_of_Z; simpl.
  rewrite !BigZ.spec_of_Z. reflexivity.
Qed.

Lemma to_of_Z (p : Point) : Big.to_Z (Big.of_Z p) = p.
Proof.
  destruct p as [c x y]; unfold Big.to_Z, Big.of_Z; simpl.
  destruct c, x, y; simpl; rewrite ?curve_to_of_Z, ?BigZ.spec_of_Z; reflexivity.
Qed.

Lemma rmul_big (n : N) (p : Point) :
  rmul n p = res_map Big.to_Z (Big.rmul n (Big.of_Z p)).
Proof. rewrite rmul_spec, to_of_Z. reflexivity. Qed.

Lemma verify_point_spec (u v : N) (p : Point) :
  verify_point u v p = res_map Big.to_Z (Big.verify_point u v (Big.of_Z p)).
Proof.
  unfold verify_point, Big.verify_point. rewrite !rmul_big.
  destruct (Big.rmul u _) as [a|e]; [|reflexivity].
  destruct (Big.rmul v _) as [b|e]; [|reflexivity].
  cbn [bind res_map]. symmetry. apply add_spec.
Qed.

Lemma curve_eqb_true (c d : Curve) : curve_eqb c d = true -> c = d.
Proof.
  destruct c, d; unfold curve_eqb; cbn.
  rewrite !andb_true_iff, !Z.eqb_eq. intros [[-> ->] ->]. reflexivity.
Qed.

Lemma opt_eqb_true (a b : option Z) : opt_eqb a b = true -> a = b.
Proof.
  destruct a, b; cbn; try discriminate; [rewrite Z.eqb_eq; congruence | reflexivity].
Qed.

Lemma point_eqb_true (p q : Point) : point_eqb p q = true -> p = q.
Proof.
  destruct p as [c x y], q as [d x' y']; unfold point_eqb; cbn [curve px py].
  rewrite !andb_true_iff. intros [[Hc Hx] Hy].
  apply opt_eqb_true in Hx, Hy. subst.
  destruct c, d; try discriminate; [apply curve_eqb_true in Hc; subst|]; reflexivity.
Qed.

Lemma res_is_ok (r : Res Big.BPoint) (q : Point) :
  Big.res_is r q = true -> res_map Big.to_Z r = Ok q.
Proof.
  destruct r as [b|e]; cbn; [|discriminate].
  intros H. apply point_eqb_true in H. subst. reflexivity.
Qed.

End BigSpec.

(* ================================================================== *)
(** ** Point addition at a vertical tangent *)

(** C2 (Point.__add__): adding an affine point with [y = 0] to itself does
    not give the point at infinity: on the curve [y^2 = x^3 + 1 (mod 7)],
    [(6, 0) + (6, 0)] is the affine [(2, 0)], which is not even on the
    curve, because [modulardiv(.., 0, p)] silently yields a slope of 0. *)
Theorem add_vertical_tangent_not_inf :
  on_curve toy 6 0 = true /\
  (4 * ca toy ^ 3 + 27 * cb toy ^ 2) mod cp toy <> 0 /\
  add toy_pt toy_pt = Ok (mkPoint (Some toy) (Some 2) (Some 0)) /\
  add toy_pt toy_pt <> Ok INF /\
  on_curve toy 2 0 = false.
Proof.
  vm_compute. repeat split; try reflexivity; discriminate.
Qed.

(* ================================================================== *)
(** ** Script pushes *)

(** C7 (Script.encode): a push of 75 bytes, within [1 <= n <= 75], is
    refused with ValueError (the guard is [cmd_len < 75]); a push of 74
    bytes gets its single length byte. *)
Theorem script_encode_push75_fails :
  script_encode [Push (repeat x00 75)] = Err ValueError /\
  script_encode [Push (repeat x00 74)] = Ok (x4b :: x4a :: repeat x00 74).
Proof. split; vm_compute; reflexivity. Qed.

(* ================================================================== *)
(** ** Short reads in decode_int *)

(** C9, counterexample: on a one-byte stream, [decode_int(s, 4)] returns
    the integer 1 instead of failing. *)
Lemma decode_int_short_read_returns :
  (length [x01] < 4)%nat /\ decode_int [x01] 4 Little = Ok (1, []).
Proof. split; [auto | reflexivity]. Qed.

(** C9, amended: on a stream of fewer than [n] bytes, [decode_int]
    consumes the whole stream and returns the integer of the bytes it holds
    in the requested byte order. *)
Theorem decode_int_short_read (s : list byte) (n : nat) (e : Endian)
  (Hshort : (length s < n)%nat) :
  decode_int s n e = Ok (from_bytes s e, []).
Proof.
  unfold decode_int, read; cbn [fst snd].
  rewrite firstn_all2, skipn_all2 by lia. reflexivity.
Qed.

Lemma decode_int_short_read_witness :
  (length [x01; x02] < 4)%nat /\
  decode_int [x01; x02] 4 Little = Ok (from_bytes [x01; x02] Little, []).
Proof.
  split; [cbn; lia | apply (decode_int_short_read [x01; x02] 4 Little); cbn; lia].
Defined.

(* ================================================================== *)
(** ** Curve membership of decoded keys *)

(** C10 (Point, PublicKey.decode): nothing checks the curve equation: the
    uncompressed SEC encoding [0x04 || 0^32 || 0^32] decodes to the affine
    point [(0, 0)], which is off secp256k1 ([0 <> 7]). *)
Theorem pubkey_decode_off_curve :
  pubkey_decode (x04 :: repeat x00 64) =
    Ok (mkPoint (Some Secp256k1.E) (Some 0) (Some 0)) /\
  on_curve Secp256k1.E 0 0 = false.
Proof. split; vm_compute; reflexivity. Qed.

(* ================================================================== *)
(** ** The Merkle root *)

(** C8 (MerkleTree.construct): for ["aa"*32, "bb"*32] the [root] property
    is the one-element list holding the hex string of
    [hash256(aa || bb)] (not reversed), not the 32-byte little-endian root. *)
Theorem merkle_root_aa_bb :
  let aa := repeat xaa 32 in
  let bb := repeat xbb 32 in
  let h := hash256 (rev aa ++ rev bb) in
  construct [str_rep "aa" 32; str_rep "bb" 32] =
    Ok (Some (mkMerkleTree [[PyStr (hex_of_bytes h)]; [PyBytes aa; PyBytes bb]]
                           (PyList [PyStr (hex_of_bytes h)]))) /\
  PyList [PyStr (hex_of_bytes h)] <> PyBytes (rev h) /\
  hex_of_bytes h <> hex_of_bytes (rev h).
Proof.
  intros aa bb h.
  split; [vm_compute; reflexivity | split; [discriminate |]].
  vm_compute. discriminate.
Qed.

(* ================================================================== *)
(** ** DER encoding and decoding of signatures *)

Lemma bZ_range (b : byte) : 0 <= bZ b < 256.
Proof. unfold bZ. pose proof (Byte.to_N_bounded b). lia. Qed.

Lemma bZ_byte_of_Z (z : Z) : 0 <= z < 256 -> bZ (byte_of_Z z) = z.
Proof.
  intros Hz. unfold bZ, byte_of_Z.
  destruct (Byte.of_N (Z.to_N z)) as [b|] eqn:H.
  - apply Byte.to_of_N in H. rewrite H. lia.
  - apply Byte.of_N_None_iff in H. lia.
Qed.

Lemma fold_from (l : list byte) (acc : Z) :
  fold_left (fun acc b => acc * 256 + bZ b) l acc =
  acc * 256 ^ Z.of_nat (length l) + from_bytes_be l.
Proof.
  unfold from_bytes_be. revert acc.
  induction l as [|b t IH]; intros acc; cbn [fold_left length].
  - cbn. lia.
  - rewrite (IH (acc * 256 + bZ b)), (IH (0 * 256 + bZ b)).
    rewrite Nat2Z.inj_succ, Z.pow_succ_r by lia. ring.
Qed.

Lemma from_app (l1 l2 : list byte) :
  from_bytes_be (l1 ++ l2) = from_bytes_be l1 * 256 ^ Z.of_nat (length l2) + from_bytes_be l2.
Proof.
  unfold from_bytes_be at 1. rewrite fold_left_app, fold_from. reflexivity.
Qed.

Lemma length_be_bytes (n : nat) (i : Z) : length (be_bytes n i) = n.
Proof.
  revert i; induction n as [|n IH]; intros i; cbn [be_bytes]; [reflexivity|].
  rewrite length_app, IH. cbn. lia.
Qed.

Lemma mod_mul_split (a b c : Z) : 0 < b -> 0 < c ->
  a mod (b * c) = a mod b + b * ((a / b) mod c).
Proof.
  intros Hb Hc. symmetry.
  apply (Z.mod_unique a (b * c) (a / b / c)).
  - left. pose proof (Z.mod_pos_bound a b Hb). pose proof (Z.mod_pos_bound (a / b) c Hc). nia.
  - pose proof (Z.div_mod a b ltac:(lia)). pose proof (Z.div_mod (a / b) c ltac:(lia)). nia.
Qed.

Lemma from_be_bytes (n : nat) (i : Z) : 0 <= i -> from_bytes_be (be_bytes n i) = i mod 256 ^ Z.of_nat n.
Proof.
  revert i; induction n as [|n IH]; intros i Hi; cbn [be_bytes].
  - cbn. rewrite Z.mod_1_r. reflexivity.
  - rewrite from_app, IH by (apply Z.div_pos; lia).
    change (Z.of_nat (length [byte_of_Z (i mod 256)])) with 1.
    unfold from_bytes_be. cbn [fold_left].
    rewrite bZ_byte_of_Z by (apply Z.mod_pos_bound; lia).
    rewrite Nat2Z.inj_succ, Z.pow_succ_r by lia.
    rewrite mod_mul_split by (try apply Z.pow_pos_nonneg; lia). ring.
Qed.

Lemma from_lstrip0 (l : list byte) : from_bytes_be (lstrip0 l) = from_bytes_be l.
Proof.
  induction l as [|b t IH]; [reflexivity|].
  destruct b; cbn [lstrip0]; try reflexivity; rewrite IH; reflexivity.
Qed.

Lemma length_lstrip0 (l : list byte) : (length (lstrip0 l) <= length l)%nat.
Proof.
  induction l as [|b t IH]; [cbn; lia|].
  destruct b; cbn [lstrip0 length]; lia.
Qed.

Lemma pow256_32 : 256 ^ Z.of_nat 32 = 2 ^ 256.
Proof. reflexivity. Qed.

Lemma der_int_ok (r : Z) : 1 <= r < 2 ^ 256 ->
  exists rb, der_pad (lstrip0 (be_bytes 32 r)) = Ok rb /\
    from_bytes_be rb = r /\ (1 <= length rb <= 33)%nat.
Proof.
  intros Hr.
  assert (Hf : from_bytes_be (lstrip0 (be_bytes 32 r)) = r).
  { rewrite from_lstrip0, from_be_bytes, pow256_32 by lia. apply Z.mod_small. lia. }
  assert (Hl : (length (lstrip0 (be_bytes 32 r)) <= 32)%nat).
  { rewrite <- (length_be_bytes 32 r) at 2. apply length_lstrip0. }
  destruct (lstrip0 (be_bytes 32 r)) as [|b0 t] eqn:Hs.
  - cbn in Hf. lia.
  - cbn [der_pad]. destruct (0x80 <=? bZ b0).
    + exists (x00 :: b0 :: t). split; [reflexivity|]. split.
      * rewrite <- Hf. reflexivity.
      * cbn [length] in *. lia.
    + exists (b0 :: t). split; [reflexivity|]. split; [exact Hf|]. cbn [length] in *. lia.
Qed.

Lemma py_bytes_ok (l : list Z) :
  (forall i, In i l -> 0 <= i < 256) -> py_bytes l = Ok (map byte_of_Z l).
Proof.
  intros H. unfold py_bytes.
  replace (forallb _ l) with true; [reflexivity|].
  symmetry. apply forallb_forall. intros i Hi. apply H in Hi. lia.
Qed.

Lemma read_app (l t : list byte) : read (length l) (l ++ t) = (l, t).
Proof.
  unfold read. rewrite firstn_app, skipn_app, Nat.sub_diag, firstn_all, skipn_all.
  cbn. rewrite app_nil_r. reflexivity.
Qed.

Lemma sig_encode_shape (r s : Z) :
  1 <= r < Secp256k1.N -> 1 <= s < Secp256k1.N ->
  exists rb sb, sig_encode r s = Ok (der_bytes rb sb) /\
    from_bytes_be rb = r /\ from_bytes_be sb = s /\
    (1 <= length rb <= 33)%nat /\ (1 <= length sb <= 33)%nat.
Proof.
  intros Hr Hs. unfold Secp256k1.N in *.
  destruct (der_int_ok r ltac:(lia)) as [rb [Hrb [Hfr Hlr]]].
  destruct (der_int_ok s ltac:(lia)) as [sb [Hsb [Hfs Hls]]].
  exists rb, sb. split; [|tauto].
  unfold sig_encode, to_bytes_be. rewrite pow256_32.
  replace ((0 <=? r) && (r <? 2 ^ 256)) with true by (symmetry; apply andb_true_intro; split; [apply Z.leb_le | apply Z.ltb_lt]; lia).
  replace ((0 <=? s) && (s <? 2 ^ 256)) with true by (symmetry; apply andb_true_intro; split; [apply Z.leb_le | apply Z.ltb_lt]; lia).
  cbn [bind]. rewrite Hrb. cbn [bind]. rewrite Hsb. cbn [bind].
  rewrite !py_bytes_ok by (intros i [<-|[<-|[]]]; lia).
  cbn [bind]. unfold der_bytes. rewrite !length_app, !length_map. cbn [length map].
  rewrite py_bytes_ok by (intros i [<-|[<-|[]]]; lia).
  cbn [bind map]. replace (2 + (length rb + (2 + length sb)))%nat with (4 + length rb + length sb)%nat by lia. reflexivity.
Qed.

Ltac eqb_true := rewrite (proj2 (Z.eqb_eq _ _)) by lia; cbn [py_assert bind fst snd].

Lemma sig_decode_der_sighash (rb sb : list byte) (h : byte) :
  (1 <= length rb <= 33)%nat -> (1 <= length sb <= 33)%nat ->
  sig_decode (der_bytes rb sb ++ [h]) = Ok (from_bytes_be rb, from_bytes_be sb).
Proof.
  intros Hr Hs. unfold sig_decode, der_bytes.
  rewrite !length_app. cbn [length app read_byte0 bind fst snd].
  rewrite !bZ_byte_of_Z by lia.
  eqb_true. eqb_true. eqb_true.
  rewrite Nat2Z.id, <- app_assoc, read_app. cbn [fst snd app read_byte0 bind].
  rewrite !bZ_byte_of_Z by lia.
  eqb_true.
  rewrite Nat2Z.id, read_app. cbn [fst snd].
  eqb_true. reflexivity.
Qed.

Lemma sig_decode_der_bare (rb sb : list byte) :
  (1 <= length rb <= 33)%nat -> (1 <= length sb <= 33)%nat ->
  sig_decode (der_bytes rb sb) = Err AssertionError.
Proof.
  intros Hr Hs. unfold sig_decode, der_bytes.
  rewrite !length_app. cbn [length app read_byte0 bind fst snd].
  rewrite !bZ_byte_of_Z by lia.
  eqb_true.
  rewrite (proj2 (Z.eqb_neq _ _)) by lia. reflexivity.
Qed.

(** C4, counterexample: [Signature(1, 1).encode()] is the 8-byte DER
    string [30 06 02 01 01 02 01 01], and decoding it raises
    AssertionError (the length check expects one more, trailing byte). *)
Lemma der_roundtrip_bare_fails :
  sig_encode 1 1 = Ok [x30; x06; x02; x01; x01; x02; x01; x01] /\
  sig_decode [x30; x06; x02; x01; x01; x02; x01; x01] = Err AssertionError.
Proof. split; vm_compute; reflexivity. Qed.

(** C4, amended: for [1 <= r, s < n], encoding succeeds; decoding the bare
    encoding raises AssertionError, and decoding it followed by any one
    (sighash) byte returns [(r, s)]. *)
Theorem der_roundtrip_sighash (r s : Z) (h : byte)
  (Hr : 1 <= r < Secp256k1.N) (Hs : 1 <= s < Secp256k1.N) :
  exists e, sig_encode r s = Ok e /\ sig_decode e = Err AssertionError /\
    sig_decode (e ++ [h]) = Ok (r, s).
Proof.
  destruct (sig_encode_shape r s Hr Hs) as [rb [sb [He [Hfr [Hfs [Hlr Hls]]]]]].
  exists (der_bytes rb sb). split; [exact He|]. split.
  - apply sig_decode_der_bare; assumption.
  - rewrite sig_decode_der_sighash by assumption. rewrite Hfr, Hfs. reflexivity.
Qed.

Lemma der_roundtrip_sighash_witness :
  (1 <= 1 < Secp256k1.N /\ 1 <= 1 < Secp256k1.N) /\
  exists e, sig_encode 1 1 = Ok e /\ sig_decode e = Err AssertionError /\
    sig_decode (e ++ [x01]) = Ok (1, 1).
Proof.
  split; [unfold Secp256k1.N; lia|].
  apply (der_roundtrip_sighash 1 1 x01); unfold Secp256k1.N; lia.
Defined.

(* ================================================================== *)
(** ** RFC-6979 nonces *)

(** The nonce of the specification's steps is RFC 6979's: for the key 1
    and the SHA-256 of ["Satoshi Nakamoto"] it is the published value. *)
Example rfc6979_spec_satoshi :
  rfc6979_spec 1 1 (from_bytes_be (SHA256.sha256 (ascii_bytes "Satoshi Nakamoto"))) =
  Ok (Some 0x8f8a276c19f4149656b280621e358cce24f5f52542772691ee69063b74f15d15).
Proof. vm_compute. reflexivity. Qed.

(** C1 (rfc6979): the source's initial [K] and [V] are the 128-byte ASCII
    strings ["0x00" * 32] and ["0x01" * 32], so for the key 1 and [z = 0]
    the first candidate differs from the specification's nonce; and
    [z = n] is not reduced (the test is [z > N]), so [z = n] and [z = 0]
    give different nonces, which the specification's steps make equal. *)
Theorem rfc6979_nonce_diverges :
  rfc6979 1 1 0 =
    Ok (Some 42445868539370806779243791192334135230820462008762555990132891761282896111899) /\
  rfc6979_spec 1 1 0 =
    Ok (Some 460428100221261538758501968554618800188726435462293948223212110817776932575) /\
  rfc6979 1 1 Secp256k1.N =
    Ok (Some 2843317704357438572692728803014610554561121690270492882914167360612688568157) /\
  rfc6979_spec 1 1 Secp256k1.N = rfc6979_spec 1 1 0.
Proof. repeat split; vm_compute; reflexivity. Qed.

(* ================================================================== *)
(** ** Scalar multiplication past the group order *)

(** C6 (Point.__rmul__): [n * G] is [INF], but [INF] is
    [Point(None, None, None)], and [__add__] reads [self.curve.p] first:
    for [k = 2^256], [(n + k) * G] adds [G]'s multiple to [res = INF] and
    raises AttributeError, while [k * G] is an affine point. Also
    [0 * G] is [Point(E, None, None)], which is not [INF = n * G]. *)
Theorem rmul_past_order :
  rmul (Z.to_N Secp256k1.N) Secp256k1.G = Ok INF /\
  rmul (Z.to_N (Secp256k1.N + 2 ^ 256)) Secp256k1.G = Err AttributeError /\
  rmul (Z.to_N (2 ^ 256)) Secp256k1.G =
    Ok (mkPoint (Some Secp256k1.E)
      (Some 100056811408208733275829432225571761443897154861420255832015183193056831248263)
      (Some 55225563209553524050574769423916742683973132338171759239001668957831436739955)) /\
  rmul 0 Secp256k1.G = Ok (mkPoint (Some Secp256k1.E) None None) /\
  mkPoint (Some Secp256k1.E) None None <> INF.
Proof.
  split; [|split; [|split; [|split]]].
  - rewrite BigSpec.rmul_big.
    assert (H : Big.rmul (Z.to_N Secp256k1.N) (Big.of_Z Secp256k1.G) = Ok Big.BINF)
      by (vm_compute; reflexivity).
    rewrite H. reflexivity.
  - rewrite BigSpec.rmul_big.
    assert (H : Big.rmul (Z.to_N (Secp256k1.N + 2 ^ 256)) (Big.of_Z Secp256k1.G)
                = Err AttributeError) by (vm_compute; reflexivity).
    rewrite H. reflexivity.
  - rewrite BigSpec.rmul_big. apply BigSpec.res_is_ok. vm_compute. reflexivity.
  - reflexivity.
  - discriminate.
Qed.

(* ================================================================== *)
(** ** Verification compares [R.x] with [r] without reducing mod [n] *)

(** C3, counterexample: for the public key [P] below (on the curve), the
    empty message and [r = s = 2] (both in [[1, n)]), [R = u*G + v*P] is
    the affine point with [R.x = n + 2], so [R.x mod n = r]; yet
    [validate_signature] returns False, comparing [R.x] with [r] directly. *)
Lemma validate_signature_rx_unreduced :
  on_curve Secp256k1.E
    0xcac68cb40674b6d3dfdfc2a8bf565e30a997bb77610bce3c035182db6f5a8d7b
    0x7bb17c85a87e6df6f3329ff1c5c7a7d5ab16d3752bc7b5e85ea6c9a531d4e859 = true /\
  1 <= 2 < Secp256k1.N /\
  verify_point
    (Z.to_N (modulardiv (from_bytes_be (hash256 [])) 2 Secp256k1.N))
    (Z.to_N (modulardiv 2 2 Secp256k1.N))
    (mkPoint (Some Secp256k1.E)
       (Some 0xcac68cb40674b6d3dfdfc2a8bf565e30a997bb77610bce3c035182db6f5a8d7b)
       (Some 0x7bb17c85a87e6df6f3329ff1c5c7a7d5ab16d3752bc7b5e85ea6c9a531d4e859)) =
    Ok (mkPoint (Some Secp256k1.E) (Some (Secp256k1.N + 2))
          (Some 0x36b1aa62eb77c1973025cbcbea9740eed8eacdab8772268b395064453269d1d3)) /\
  (Secp256k1.N + 2) mod Secp256k1.N = 2 /\
  validate_signature
    (mkPoint (Some Secp256k1.E)
       (Some 0xcac68cb40674b6d3dfdfc2a8bf565e30a997bb77610bce3c035182db6f5a8d7b)
       (Some 0x7bb17c85a87e6df6f3329ff1c5c7a7d5ab16d3752bc7b5e85ea6c9a531d4e859))
    [] 2 2 = Ok false.
Proof.
  assert (Hu : modulardiv (from_bytes_be (hash256 [])) 2 Secp256k1.N =
    21250645696371847715939370317265840750288145952672660461069234256542576298539)
    by (vm_compute; reflexivity).
  assert (Hv : modulardiv 2 2 Secp256k1.N = 1) by (vm_compute; reflexivity).
  assert (HR : verify_point
    (Z.to_N (modulardiv (from_bytes_be (hash256 [])) 2 Secp256k1.N))
    (Z.to_N (modulardiv 2 2 Secp256k1.N))
    (mkPoint (Some Secp256k1.E)
       (Some 0xcac68cb40674b6d3dfdfc2a8bf565e30a997bb77610bce3c035182db6f5a8d7b)
       (Some 0x7bb17c85a87e6df6f3329ff1c5c7a7d5ab16d3752bc7b5e85ea6c9a531d4e859)) =
    Ok (mkPoint (Some Secp256k1.E) (Some (Secp256k1.N + 2))
          (Some 0x36b1aa62eb77c1973025cbcbea9740eed8eacdab8772268b395064453269d1d3))).
  { rewrite Hu, Hv, BigSpec.verify_point_spec. apply BigSpec.res_is_ok.
    vm_compute. reflexivity. }
  split; [vm_compute; reflexivity|].
  split; [unfold Secp256k1.N; lia|].
  split; [exact HR|].
  split; [vm_compute; reflexivity|].
  unfold validate_signature. rewrite HR. vm_compute. reflexivity.
Qed.

(** C3, amended: [validate_signature] raises AssertionError unless
    [1 <= r <= n] and [1 <= s <= n]; within those bounds it returns True
    exactly when [R = u*G + v*P], with [u = z * s^(n-2) mod n] and
    [v = r * s^(n-2) mod n], is computed without an exception, is affine,
    and its [x] equals [r] itself (no reduction mod [n]). *)
Theorem validate_signature_accepts (p : Point) (m : list byte) (r s : Z) :
  (validate_signature p m r s = Ok true <->
    (1 <= r <= Secp256k1.N /\ 1 <= s <= Secp256k1.N /\
     exists c y,
       verify_point
         (Z.to_N (from_bytes_be (hash256 m) *
                  pow_mod s (Z.to_N (Secp256k1.N - 2)) Secp256k1.N mod Secp256k1.N))
         (Z.to_N (r * pow_mod s (Z.to_N (Secp256k1.N - 2)) Secp256k1.N mod Secp256k1.N))
         p = Ok (mkPoint c (Some r) y))) /\
  (~ (1 <= r <= Secp256k1.N /\ 1 <= s <= Secp256k1.N) ->
     validate_signature p m r s = Err AssertionError).
Proof.
  unfold validate_signature, modulardiv. cbv zeta.
  destruct ((1 <=? r) && (r <=? Secp256k1.N)) eqn:H1;
  destruct ((1 <=? s) && (s <=? Secp256k1.N)) eqn:H2;
  rewrite ?andb_true_iff, ?andb_false_iff, ?Z.leb_le, ?Z.leb_gt in H1, H2;
  cbn [py_assert bind].
  - split.
    + destruct (verify_point _ _ p) as [[c x y]|e]; cbn [bind px].
      * split.
        -- intros H. injection H as H. apply BigSpec.opt_eqb_true in H. subst x.
           split; [lia|]. split; [lia|]. exists c, y. reflexivity.
        -- intros [_ [_ [c' [y' H]]]]. injection H as _ -> _.
           cbn. rewrite Z.eqb_refl. reflexivity.
      * split; [discriminate|]. intros [_ [_ [c [y H]]]]. discriminate.
    + intros H. exfalso. lia.
  - split; [split; [discriminate | lia] | reflexivity].
  - split; [split; [discriminate | lia] | reflexivity].
  - split; [split; [discriminate | lia] | reflexivity].
Qed.

(* ================================================================== *)
(** ** Further properties of the code *)

Lemma mulmod3 (x b m : Z) : m <> 0 -> (x mod m * (x mod m) * b) mod m = (x * x * b) mod m.
Proof.
  intros Hm.
  assert (H : (x mod m * (x mod m)) mod m = (x * x) mod m)
    by (rewrite Z.mul_mod_idemp_l, Z.mul_mod_idemp_r by exact Hm; reflexivity).
  rewrite <- (Z.mul_mod_idemp_l (x mod m * (x mod m)) b m), H, Z.mul_mod_idemp_l by exact Hm.
  reflexivity.
Qed.

Lemma pow_mod_pos_eq (b : Z) (e : positive) (m : Z) : m <> 0 ->
  pow_mod_pos b e m = b ^ Z.pos e mod m.
Proof.
  intros Hm.
  induction e as [e IH | e IH |]; cbn [pow_mod_pos]; rewrite ?IH.
  - replace (Z.pos e~1) with (Z.pos e + Z.pos e + 1) by lia.
    rewrite !Z.pow_add_r, Z.pow_1_r by lia. apply mulmod3, Hm.
  - replace (Z.pos e~0) with (Z.pos e + Z.pos e) by lia.
    rewrite Z.pow_add_r by lia. rewrite Z.mul_mod_idemp_l, Z.mul_mod_idemp_r by exact Hm.
    reflexivity.
  - rewrite Z.pow_1_r. reflexivity.
Qed.

Lemma pow_mod_eq (b e m : Z) : m <> 0 -> 0 <= e -> pow_mod b (Z.to_N e) m = b ^ e mod m.
Proof.
  intros Hm He. destruct e as [|e|e]; cbn; [reflexivity | apply pow_mod_pos_eq, Hm | lia].
Qed.

Lemma modulardiv_mul_inv (a b p : Z) :
  Z.prime p -> b mod p <> 0 -> (modulardiv a b p * b) mod p = a mod p.
Proof.
  intros Hp Hb. pose proof (Z.prime_ge_2 _ Hp) as H2.
  unfold modulardiv. rewrite pow_mod_eq by lia.
  assert (Hk : (b ^ (p - 2) mod p * b) mod p = 1).
  { rewrite Z.mul_mod_idemp_l by lia.
    rewrite <- (Z.pow_1_r b) at 2. rewrite <- Z.pow_add_r by lia.
    replace (p - 2 + 1) with (p - 1) by lia. apply ZmodInv.Z.fermat_nz; assumption. }
  rewrite Z.mul_mod_idemp_l by lia. rewrite <- Z.mul_assoc.
  rewrite <- Z.mul_mod_idemp_r by lia. rewrite Hk, Z.mul_1_r. reflexivity.
Qed.

(** [modulardiv a b p] divides by [b] modulo a prime [p]: multiplied by [b] it gives back [a], for every [b] that is not a multiple of [p] (Fermat's little theorem). *)
Theorem modulardiv_inverse (a b p : Z) (Hp : Z.prime p) (Hb : b mod p <> 0) :
  (modulardiv a b p * b) mod p = a mod p.
Proof. apply modulardiv_mul_inv; assumption. Qed.

(** For a prime [p = 3 (mod 4)] and an [x] that is a square modulo [p], [modularsqrt x p] is a square root of [x] modulo [p]. *)
Theorem modularsqrt_square (x y p : Z) :
  Z.prime p -> p mod 4 = 3 -> y ^ 2 mod p = x mod p ->
  modularsqrt x p ^ 2 mod p = x mod p.
Proof.
  intros Hp H4 Hy. pose proof (Z.prime_ge_2 _ Hp) as H2.
  pose proof (Z.div_mod p 4 ltac:(lia)) as Hq. rewrite H4 in Hq.
  set (q := p / 4) in *. assert (0 <= q) by (subst q; apply Z.div_pos; lia).
  unfold modularsqrt.
  replace ((p + 1) / 4) with (q + 1)
    by (apply Z.div_unique with 0; lia).
  rewrite pow_mod_eq by lia. rewrite Z.mod_pow_l.
  rewrite <- Z.pow_mul_r by lia.
  rewrite <- Z.mod_pow_l, <- Hy, Z.mod_pow_l, <- Z.pow_mul_r by lia.
  replace (2 * ((q + 1) * 2)) with ((p - 1) + 2) by lia.
  rewrite Z.pow_add_r by lia.
  destruct (Z.eq_dec (y mod p) 0) as [H0 | H0].
  - rewrite <- Z.mul_mod_idemp_r by lia. rewrite <- (Z.mod_pow_l y 2), H0.
    rewrite Z.pow_0_l by lia. rewrite !Z.mod_0_l by lia. rewrite Z.mul_0_r, Z.mod_0_l by lia.
    reflexivity.
  - rewrite <- Z.mul_mod_idemp_l by lia. rewrite ZmodInv.Z.fermat_nz by assumption.
    rewrite Z.mul_1_l. reflexivity.
Qed.


Lemma to_bytes_ok (i : Z) (n : nat) (e : Endian) :
  0 <= i < 256 ^ Z.of_nat n -> to_bytes i n e = Ok (endian_bytes i n e).
Proof.
  intros H. unfold to_bytes, to_bytes_be.
  replace ((0 <=? i) && (i <? 256 ^ Z.of_nat n)) with true
    by (symmetry; apply andb_true_intro; split; [apply Z.leb_le | apply Z.ltb_lt]; lia).
  destruct e; reflexivity.
Qed.

Lemma length_endian_bytes (i : Z) (n : nat) (e : Endian) : length (endian_bytes i n e) = n.
Proof. destruct e; unfold endian_bytes; rewrite ?length_rev; apply length_be_bytes. Qed.

Lemma from_endian_bytes (i : Z) (n : nat) (e : Endian) :
  0 <= i < 256 ^ Z.of_nat n -> from_bytes (endian_bytes i n e) e = i.
Proof.
  intros H. destruct e; unfold endian_bytes, from_bytes; [|unfold from_bytes_le];
    rewrite ?rev_involutive; rewrite from_be_bytes by lia; apply Z.mod_small; lia.
Qed.

Lemma decode_int_app (l rest : list byte) (e : Endian) :
  decode_int (l ++ rest) (length l) e = Ok (from_bytes l e, rest).
Proof. unfold decode_int. rewrite read_app. reflexivity. Qed.

(** [encode_int] and [decode_int] are inverse on [0 <= i < 256^n]: the encoding has [n] bytes and reading [n] bytes of it back from a stream gives [i] and leaves the rest of the stream. *)
Theorem encode_decode_int (i : Z) (n : nat) (e : Endian) (rest : list byte)
  (Hi : 0 <= i < 256 ^ Z.of_nat n) :
  exists b, encode_int i n e = Ok b /\ length b = n /\
    decode_int (b ++ rest) n e = Ok (i, rest).
Proof.
  exists (endian_bytes i n e). split; [apply to_bytes_ok, Hi|].
  split; [apply length_endian_bytes|].
  rewrite <- (length_endian_bytes i n e) at 2.
  rewrite decode_int_app, from_endian_bytes by exact Hi. reflexivity.
Qed.


Lemma encode_varint_decode (i : Z) (rest : list byte) (Hi : 0 <= i < 2 ^ 64) :
  exists b, encode_varint i = Ok b /\
    Z.of_nat (length b) = (if i <? 0xfd then 1 else if i <? 0x10000 then 3
                else if i <? 0x100000000 then 5 else 9) /\
    decode_varint (b ++ rest) = Ok (i, rest).
Proof.
  unfold encode_varint, encode_int.
  destruct (i <? 0xfd) eqn:H1; [|destruct (i <? 0x10000) eqn:H2;
    [|destruct (i <? 0x100000000) eqn:H3]];
  rewrite ?Z.ltb_lt, ?Z.ltb_ge in *.
  - exists [byte_of_Z i]. unfold py_bytes. cbn [forallb].
    replace ((0 <=? i) && (i <? 256) && true) with true
      by (symmetry; rewrite !andb_true_iff, Z.leb_le, Z.ltb_lt; lia).
    split; [reflexivity|]. split; [reflexivity|].
    unfold decode_varint. pose proof (decode_int_app [byte_of_Z i] rest Little) as D.
    cbn [length app] in D. cbn [app]. rewrite D. cbn [bind fst snd].
    unfold from_bytes, from_bytes_le, from_bytes_be; cbn. rewrite bZ_byte_of_Z by lia.
    replace (i =? 253) with false by (symmetry; apply Z.eqb_neq; lia).
    replace (i =? 254) with false by (symmetry; apply Z.eqb_neq; lia).
    replace (i =? 255) with false by (symmetry; apply Z.eqb_neq; lia).
    reflexivity.
  - rewrite to_bytes_ok by (cbn; lia). cbn [bind].
    exists (xfd :: endian_bytes i 2 Little). split; [reflexivity|].
    split; [cbn [length]; rewrite length_endian_bytes; reflexivity|].
    unfold decode_varint. pose proof (decode_int_app [xfd] (endian_bytes i 2 Little ++ rest) Little) as D.
    cbn [length app] in D. cbn [app]. rewrite D. cbn [bind fst snd].
    change (from_bytes [xfd] Little =? 253) with true. cbv iota.
    rewrite <- (length_endian_bytes i 2 Little) at 2.
    rewrite decode_int_app, from_endian_bytes by (cbn; lia). reflexivity.
  - rewrite to_bytes_ok by (cbn; lia). cbn [bind].
    exists (xfe :: endian_bytes i 4 Little). split; [reflexivity|].
    split; [cbn [length]; rewrite length_endian_bytes; reflexivity|].
    unfold decode_varint. pose proof (decode_int_app [xfe] (endian_bytes i 4 Little ++ rest) Little) as D.
    cbn [length app] in D. cbn [app]. rewrite D. cbn [bind fst snd].
    change (from_bytes [xfe] Little =? 253) with false.
    change (from_bytes [xfe] Little =? 254) with true. cbv iota.
    rewrite <- (length_endian_bytes i 4 Little) at 2.
    rewrite decode_int_app, from_endian_bytes by (cbn; lia). reflexivity.
  - replace (i <? 18446744073709551616) with true by (symmetry; apply Z.ltb_lt; lia).
    rewrite to_bytes_ok by (cbn; lia). cbn [bind].
    exists (xff :: endian_bytes i 8 Little). split; [reflexivity|].
    split; [cbn [length]; rewrite length_endian_bytes; reflexivity|].
    unfold decode_varint. pose proof (decode_int_app [xff] (endian_bytes i 8 Little ++ rest) Little) as D.
    cbn [length app] in D. cbn [app]. rewrite D. cbn [bind fst snd].
    change (from_bytes [xff] Little =? 253) with false.
    change (from_bytes [xff] Little =? 254) with false.
    change (from_bytes [xff] Little =? 255) with true. cbv iota.
    rewrite <- (length_endian_bytes i 8 Little) at 2.
    rewrite decode_int_app, from_endian_bytes by (cbn; lia). reflexivity.
Qed.

(** [encode_varint i] raises ValueError exactly for [i < 0] (from [bytes([i])]) and [i >= 2^64]. *)
Theorem encode_varint_error (i : Z) :
  encode_varint i = Err ValueError <-> (i < 0 \/ 2 ^ 64 <= i).
Proof.
  unfold encode_varint, encode_int.
  destruct (i <? 0xfd) eqn:H1; [|destruct (i <? 0x10000) eqn:H2;
    [|destruct (i <? 0x100000000) eqn:H3; [|destruct (i <? 0x10000000000000000) eqn:H4]]];
  rewrite ?Z.ltb_lt, ?Z.ltb_ge in *.
  - unfold py_bytes. cbn [forallb].
    destruct (0 <=? i) eqn:H0; rewrite ?Z.leb_le, ?Z.leb_gt in H0.
    + replace (true && (i <? 256) && true) with true
        by (symmetry; rewrite !andb_true_iff, Z.ltb_lt; lia).
      split; [discriminate | lia].
    + cbn. split; [lia | reflexivity].
  - rewrite to_bytes_ok by (cbn; lia). split; [discriminate | lia].
  - rewrite to_bytes_ok by (cbn; lia). split; [discriminate | lia].
  - rewrite to_bytes_ok by (cbn; lia). split; [discriminate | lia].
  - split; [lia | reflexivity].
Qed.

(** [encode_varint] then [decode_varint] on a stream gives back every [0 <= i < 2^64], with an encoding of 1, 3, 5 or 9 bytes by magnitude, and leaves the rest of the stream unread. *)
Theorem varint_roundtrip (i : Z) (rest : list byte) (Hi : 0 <= i < 2 ^ 64) :
  exists b, encode_varint i = Ok b /\
    Z.of_nat (length b) = (if i <? 0xfd then 1 else if i <? 0x10000 then 3
                else if i <? 0x100000000 then 5 else 9) /\
    decode_varint (b ++ rest) = Ok (i, rest).
Proof. apply encode_varint_decode, Hi. Qed.

Lemma encode_int1 (i : Z) : 0 <= i < 256 -> encode_int i 1 Little = Ok [byte_of_Z i].
Proof.
  intros H. unfold encode_int. rewrite to_bytes_ok by (cbn; lia).
  cbn -[byte_of_Z Z.modulo]. rewrite Z.mod_small by lia. reflexivity.
Qed.

Lemma read1 (x : byte) (t : list byte) : read 1 (x :: t) = ([x], t).
Proof. reflexivity. Qed.

Lemma from_bytes_be1 (b : byte) : from_bytes_be [b] = bZ b.
Proof. reflexivity. Qed.


Lemma script_decode_loop_encode (cmds : list Cmd) :
  forall body fuel l i st acc,
  forallb simple_cmd cmds = true -> encode_cmds cmds = Ok body ->
  (length body <= fuel)%nat -> l = i + Z.of_nat (length body) ->
  script_decode_loop fuel l i (body ++ st) acc = Some (acc ++ cmds, st).
Proof.
  induction cmds as [|c t IH]; intros body fuel l i st acc Hs He Hf Hl.
  - cbn in He. inversion He; subst body. cbn [app length Z.of_nat] in Hl |- *.
    destruct fuel; cbn [script_decode_loop]; (replace (i <? l) with false by (symmetry; apply Z.ltb_ge; lia));
      rewrite app_nil_r; reflexivity.
  - cbn [forallb] in Hs. apply andb_true_iff in Hs as [Hc Hs].
    cbn [encode_cmds] in He.
    destruct (encode_cmd c) as [e|] eqn:Ec; [|discriminate]. cbn [bind] in He.
    destruct (encode_cmds t) as [r|] eqn:Er; [|discriminate]. cbn [bind] in He.
    inversion He; subst body. clear He.
    rewrite length_app in Hf, Hl.
    destruct c as [k|b]; cbn [simple_cmd] in Hc.
    + rewrite !andb_true_iff, negb_true_iff, Z.leb_le, Z.ltb_lt in Hc.
      destruct Hc as [[Hk1 Hk2] Hk3]. cbn [encode_cmd] in Ec.
      rewrite encode_int1 in Ec by lia. inversion Ec; subst e. clear Ec.
      cbn [length] in Hf, Hl. destruct fuel as [|f]; [lia|].
      cbn [script_decode_loop]. replace (i <? l) with true by (symmetry; apply Z.ltb_lt; lia).
      cbn [app]. rewrite read1. cbn [fst snd]. rewrite from_bytes_be1, bZ_byte_of_Z by lia.
      apply andb_false_iff in Hk3. rewrite Z.leb_gt in Hk3.
      replace ((1 <=? k) && (k <=? 75)) with false
        by (symmetry; apply andb_false_iff; rewrite Z.leb_gt, Z.leb_gt; lia).
      replace (k =? 76) with false by (symmetry; apply Z.eqb_neq; lia).
      replace (k =? 77) with false by (symmetry; apply Z.eqb_neq; lia).
      rewrite (IH r f l (i + 1) st (acc ++ [Op k])) by (auto; lia).
      rewrite <- app_assoc. reflexivity.
    + rewrite andb_true_iff, !Nat.leb_le in Hc.
      cbn [encode_cmd] in Ec.
      replace (Z.of_nat (length b) <? 75) with true in Ec by (symmetry; apply Z.ltb_lt; lia).
      rewrite encode_int1 in Ec by lia. cbn [bind] in Ec. inversion Ec; subst e. clear Ec.
      cbn [length app] in Hf, Hl. rewrite ?length_app in Hf, Hl. destruct fuel as [|f]; [lia|].
      cbn [script_decode_loop]. replace (i <? l) with true by (symmetry; apply Z.ltb_lt; lia).
      cbn [app]. rewrite read1. cbn [fst snd]. rewrite from_bytes_be1, bZ_byte_of_Z by lia.
      replace ((1 <=? Z.of_nat (length b)) && (Z.of_nat (length b) <=? 75)) with true
        by (symmetry; apply andb_true_iff; rewrite !Z.leb_le; lia).
      rewrite Nat2Z.id, <- app_assoc, read_app. cbn [fst snd].
      rewrite (IH r f l (i + Z.of_nat (length b) + 1) st (acc ++ [Push b])) by (auto; lia).
      rewrite <- app_assoc. reflexivity.
Qed.

Lemma encode_cmds_nil (cmds : list Cmd) :
  forallb simple_cmd cmds = true -> encode_cmds cmds = Ok [] -> cmds = [].
Proof.
  destruct cmds as [|c t]; intros Hs He; [reflexivity|]. exfalso.
  cbn [encode_cmds] in He. destruct (encode_cmd c) as [e|] eqn:Ec; [|discriminate].
  cbn [bind] in He. destruct (encode_cmds t) as [r|]; [|discriminate]. cbn [bind] in He.
  inversion He as [He']. apply app_eq_nil in He' as [-> _].
  cbn [forallb] in Hs. apply andb_true_iff in Hs as [Hc _].
  destruct c as [k|b]; cbn [encode_cmd simple_cmd] in Ec, Hc.
  - rewrite !andb_true_iff, Z.leb_le, Z.ltb_lt in Hc. rewrite encode_int1 in Ec by lia. discriminate.
  - rewrite andb_true_iff, !Nat.leb_le in Hc.
    replace (Z.of_nat (length b) <? 75) with true in Ec by (symmetry; apply Z.ltb_lt; lia).
    rewrite encode_int1 in Ec by lia. discriminate.
Qed.

(** [Script.decode] reads back what [Script.encode] wrote, and stops at its end, for commands that are opcodes in [0, 256) other than the push prefixes 1..77 and pushes of 1 to 74 bytes. *)
Theorem script_roundtrip (cmds : list Cmd) (body rest : list byte)
  (Hs : forallb simple_cmd cmds = true) (He : encode_cmds cmds = Ok body)
  (Hl : Z.of_nat (length body) < 2 ^ 64) :
  exists e, script_encode cmds = Ok e /\ script_decode (e ++ rest) = Some (cmds, rest).
Proof.
  destruct (encode_varint_decode (Z.of_nat (length body)) (body ++ rest)) as [v [Hv [_ Hd]]]; [lia|].
  exists (v ++ body). split.
  - unfold script_encode. rewrite He. cbn [bind]. rewrite Hv. reflexivity.
  - unfold script_decode. rewrite <- app_assoc, Hd.
    destruct (Z.of_nat (length body) =? 0) eqn:H0.
    + apply Z.eqb_eq in H0. destruct body; [|cbn in H0; lia].
      rewrite (encode_cmds_nil cmds Hs He). reflexivity.
    + apply Z.eqb_neq in H0.
      apply (script_decode_loop_encode cmds body _ _ 0 rest []); auto; lia.
Qed.

(** A single push of 76 to 255 bytes (OP_PUSHDATA1) does not round-trip: [Script.decode] counts the push as [datalen + 1] bytes while the encoding has [datalen + 2], so it reads one more command, [0] from the exhausted stream. *)
Theorem script_pushdata1_miscount (b : list byte)
  (Hb : (76 <= length b <= 255)%nat) :
  exists e, script_encode [Push b] = Ok e /\ script_decode e = Some ([Push b; Op 0], []).
Proof.
  set (n := Z.of_nat (length b)).
  assert (Ec : encode_cmds [Push b] = Ok ([byte_of_Z 76; byte_of_Z n] ++ b)).
  { cbn [encode_cmds encode_cmd]. fold n.
    replace (n <? 75) with false by (symmetry; apply Z.ltb_ge; lia).
    replace ((76 <=? n) && (n <=? 255)) with true
      by (symmetry; apply andb_true_iff; rewrite !Z.leb_le; lia).
    rewrite !encode_int1 by lia. cbn [bind app]. rewrite app_nil_r. reflexivity. }
  set (body := [byte_of_Z 76; byte_of_Z n] ++ b) in *.
  assert (Hlen : Z.of_nat (length body) = n + 2) by (unfold body; cbn [length app]; lia).
  destruct (encode_varint_decode (Z.of_nat (length body)) (body ++ [])) as [v [Hv [_ Hd]]]; [lia|].
  exists (v ++ body). split.
  - unfold script_encode. rewrite Ec. cbn [bind]. rewrite Hv. reflexivity.
  - unfold script_decode. rewrite <- (app_nil_r (v ++ body)), <- app_assoc, Hd.
    rewrite Hlen. replace (n + 2 =? 0) with false by (symmetry; apply Z.eqb_neq; lia).
    replace (Z.to_nat (n + 2)) with (S (S (length b))) by lia.
    cbn [script_decode_loop]. replace (0 <? n + 2) with true by (symmetry; apply Z.ltb_lt; lia).
    unfold body. cbn [app]. rewrite read1. cbn [fst snd]. rewrite from_bytes_be1, bZ_byte_of_Z by lia.
    cbn [Z.leb Z.compare andb Z.eqb Pos.eqb]. rewrite read1. cbn [fst snd].
    unfold from_bytes_le. cbn [rev app]. rewrite from_bytes_be1, bZ_byte_of_Z by lia.
    fold n. rewrite app_nil_r.
    change (Z.to_nat n) with (Z.to_nat (Z.of_nat (length b))). rewrite Nat2Z.id.
    pose proof (read_app b []) as R. rewrite app_nil_r in R. rewrite R. cbn [fst snd].
    replace (0 + n + 1 <? n + 2) with true by (symmetry; apply Z.ltb_lt; lia).
    cbn. destruct (length b); cbn [script_decode_loop];
      (replace (n + 1 + 1 <? n + 2) with false by (symmetry; apply Z.ltb_ge; lia)); reflexivity.
Qed.

(** For a 20-byte hash [h], the P2PKH script encodes to [19 76 a9 14 h 88 ac]. *)
Theorem p2pkh_script_encoding (h : list byte) (Hh : length h = 20%nat) :
  exists cmds, p2pkh_script h = Ok cmds /\
    script_encode cmds = Ok ([x19; x76; xa9; x14] ++ h ++ [x88; xac]).
Proof.
  eexists. split.
  - unfold p2pkh_script. rewrite Hh. reflexivity.
  - unfold script_encode. cbn [encode_cmds encode_cmd]. rewrite Hh.
    simpl. rewrite !length_app, Hh. simpl. reflexivity.
Qed.


Lemma to_bytes_be_ok (i : Z) (n : nat) :
  0 <= i < 256 ^ Z.of_nat n -> to_bytes_be i n = Ok (be_bytes n i).
Proof. intros H. exact (to_bytes_ok i n Big H). Qed.

Lemma from_be_bytes_small (n : nat) (i : Z) :
  0 <= i < 256 ^ Z.of_nat n -> from_bytes_be (be_bytes n i) = i.
Proof. intros H. rewrite from_be_bytes by lia. apply Z.mod_small. lia. Qed.

Lemma firstn_app_len (l t : list byte) : firstn (length l) (l ++ t) = l.
Proof. pose proof (read_app l t) as R. unfold read in R. congruence. Qed.

Lemma skipn_app_len (l t : list byte) : skipn (length l) (l ++ t) = t.
Proof. pose proof (read_app l t) as R. unfold read in R. congruence. Qed.

(** The uncompressed SEC encoding of a secp256k1 point with coordinates below [2^256] has 65 bytes and [PublicKey.decode] gives the point back. *)
Theorem pubkey_uncompressed_roundtrip (x y : Z)
  (Hx : 0 <= x < 2 ^ 256) (Hy : 0 <= y < 2 ^ 256) :
  exists e, pubkey_encode (mkPoint (Some Secp256k1.E) (Some x) (Some y)) false = Ok e /\
    length e = 65%nat /\
    pubkey_decode e = Ok (mkPoint (Some Secp256k1.E) (Some x) (Some y)).
Proof.
  rewrite <- pow256_32 in Hx, Hy.
  exists (x04 :: be_bytes 32 x ++ be_bytes 32 y). split; [|split].
  - unfold pubkey_encode. cbn [px py].
    rewrite !to_bytes_be_ok by exact Hx || exact Hy. reflexivity.
  - cbn [length]. rewrite length_app, !length_be_bytes. reflexivity.
  - unfold pubkey_decode. change (bZ x04 =? 4) with true. cbv iota.
    set (bx := be_bytes 32 x). set (by_ := be_bytes 32 y).
    assert (Lx : length bx = 32%nat) by apply length_be_bytes.
    assert (Ly : length by_ = 32%nat) by apply length_be_bytes.
    assert (F1 : firstn 32 (bx ++ by_) = bx) by (rewrite <- Lx; apply firstn_app_len).
    assert (F2 : firstn 32 (skipn 32 (bx ++ by_)) = by_)
      by (rewrite <- Lx, skipn_app_len, Lx, <- Ly; apply firstn_all).
    rewrite F1, F2. unfold bx, by_. rewrite !from_be_bytes_small by assumption. reflexivity.
Qed.

Lemma pow_mod_range (b : Z) (e : N) (m : Z) : 0 < m -> 0 <= pow_mod b e m < m.
Proof.
  intros Hm. rewrite <- (N2Z.id e). rewrite pow_mod_eq by lia.
  apply Z.mod_pos_bound. exact Hm.
Qed.

(** The compressed SEC encoding of a point with [0 <= x < 2^256] has 33 bytes and starts with 2 for an even [y], 3 for an odd one; decoding it gives a secp256k1 point with the same [x] and a [y] in [[0, P]] of the same parity. *)
Theorem pubkey_compressed_parity (c : option Curve) (x y : Z) (Hx : 0 <= x < 2 ^ 256) :
  exists e y', pubkey_encode (mkPoint c (Some x) (Some y)) true = Ok e /\
    length e = 33%nat /\
    bZ (hd x00 e) = (if y mod 2 =? 0 then 2 else 3) /\
    pubkey_decode e = Ok (mkPoint (Some Secp256k1.E) (Some x) (Some y')) /\
    y' mod 2 = y mod 2 /\ 0 <= y' <= Secp256k1.P.
Proof.
  rewrite <- pow256_32 in Hx.
  set (pre := if y mod 2 =? 0 then x02 else x03).
  assert (HP : Secp256k1.P mod 2 = 1) by reflexivity.
  assert (HP0 : 0 < Secp256k1.P) by reflexivity.
  set (r := modularsqrt ((pow_mod x 3 Secp256k1.P + 7)
                          mod Secp256k1.P) Secp256k1.P).
  assert (Hr : 0 <= r < Secp256k1.P) by (apply pow_mod_range; exact HP0).
  exists (pre :: be_bytes 32 x).
  exists (if Bool.eqb (bZ pre =? 2) (r mod 2 =? 0) then r else Secp256k1.P - r).
  split; [|split; [|split; [|split]]].
  - unfold pubkey_encode. cbn [px py]. rewrite to_bytes_be_ok by exact Hx. reflexivity.
  - cbn [length]. rewrite length_be_bytes. reflexivity.
  - cbn [hd]. unfold pre. destruct (y mod 2 =? 0); reflexivity.
  - unfold pubkey_decode.
    assert (Hpre : (bZ pre =? 4) = false /\ ((bZ pre =? 2) || (bZ pre =? 3)) = true)
      by (unfold pre; destruct (y mod 2 =? 0); split; reflexivity).
    destruct Hpre as [-> ->]. cbv iota zeta. rewrite from_be_bytes_small by exact Hx.
    reflexivity.
  - assert (Hy2 : 0 <= y mod 2 < 2) by (apply Z.mod_pos_bound; lia).
    assert (Hr2 : 0 <= r mod 2 < 2) by (apply Z.mod_pos_bound; lia).
    assert (Hsub : (Secp256k1.P - r) mod 2 = 1 - r mod 2).
    { rewrite Zminus_mod, HP. destruct (Z.eq_dec (r mod 2) 0) as [E|E].
      - rewrite E. reflexivity.
      - replace (r mod 2) with 1 by lia. reflexivity. }
    unfold pre; destruct (y mod 2 =? 0) eqn:Ey; cbn [bZ Byte.to_N Z.of_N Z.eqb Pos.eqb];
      rewrite ?Z.eqb_eq, ?Z.eqb_neq in Ey;
      destruct (r mod 2 =? 0) eqn:Er; rewrite ?Z.eqb_eq, ?Z.eqb_neq in Er; cbn [Bool.eqb];
      lia.
Qed.


Lemma byte_of_bZ (b : byte) : byte_of_Z (bZ b) = b.
Proof. unfold byte_of_Z, bZ. rewrite N2Z.id, Byte.of_to_N. reflexivity. Qed.

Lemma from_bytes_be_range (l : list byte) : 0 <= from_bytes_be l < 256 ^ Z.of_nat (length l).
Proof.
  induction l as [|b t IH] using rev_ind; [cbn; lia|].
  rewrite from_app, length_app, Nat2Z.inj_add. cbn [length Z.of_nat].
  change (from_bytes_be [b]) with (0 * 256 + bZ b). pose proof (bZ_range b).
  rewrite Z.pow_add_r by lia. change (256 ^ Z.of_nat (S O)) with 256 in *. nia.
Qed.

Lemma be_bytes_from (l : list byte) : be_bytes (length l) (from_bytes_be l) = l.
Proof.
  induction l as [|b t IH] using rev_ind; [reflexivity|].
  rewrite length_app, Nat.add_comm. cbn [length Nat.add be_bytes].
  rewrite from_app. change (from_bytes_be [b]) with (0 * 256 + bZ b).
  pose proof (bZ_range b). cbn [length Z.of_nat]. change (256 ^ 1) with 256.
  rewrite Z.div_add_l, Z.div_small, Z.add_0_r, IH by lia. f_equal.
  f_equal. cbn [Pos.of_succ_nat]. rewrite Z.pow_1_r, Z.mul_0_l, Z.add_0_l, Z.add_comm, Z.mod_add,
    Z.mod_small, byte_of_bZ by lia. reflexivity.
Qed.

Lemma str_index_nth (k : nat) :
  (k < 58)%nat -> str_index (nth k BASE58_CHARS "1"%char) BASE58_CHARS = Ok (Z.of_nat k).
Proof.
  intros Hk. do 58 (destruct k as [|k]; [reflexivity|]). lia.
Qed.

Lemma b58_value_loop (fuel : nat) :
  forall n res, 0 <= n < 58 ^ Z.of_nat fuel ->
  b58_value 0 (b58_loop fuel n res) = b58_value n res.
Proof.
  induction fuel as [|f IH]; intros n res Hn; cbn [b58_loop].
  - cbn in Hn. replace n with 0 by lia. reflexivity.
  - destruct (0 <? n) eqn:Hp; [|rewrite Z.ltb_ge in Hp; replace n with 0 by lia; reflexivity].
    rewrite Nat2Z.inj_succ, Z.pow_succ_r in Hn by lia.
    rewrite IH by (split; [apply Z.div_pos | apply Z.div_lt_upper_bound]; lia).
    cbn [b58_value]. pose proof (Z.mod_pos_bound n 58 ltac:(lia)).
    rewrite str_index_nth by lia. cbn [bind]. rewrite Z2Nat.id by lia.
    rewrite Z.mul_comm, <- Z.div_mod by lia. reflexivity.
Qed.

Lemma b58_fuel_enough (n : Z) : 0 <= n -> n < 58 ^ Z.of_nat (b58_fuel n).
Proof.
  intros Hn. unfold b58_fuel. pose proof (Z.log2_nonneg n).
  rewrite Z2Nat.id by lia.
  destruct (Z.eq_dec n 0) as [->|Hn0]; [reflexivity|].
  destruct (Z.log2_spec n ltac:(lia)) as [_ H2].
  rewrite <- Z.add_1_r in H2.
  assert (2 ^ (Z.log2 n + 1) <= 58 ^ (Z.log2 n + 1)) by (apply Z.pow_le_mono_l; lia).
  lia.
Qed.

Lemma b58_value_app (n : Z) (s t : list ascii) :
  b58_value n (s ++ t) = let* m := b58_value n s in b58_value m t.
Proof.
  revert n; induction s as [|c s IH]; intros n; [reflexivity|].
  cbn [app b58_value]. destruct (str_index c BASE58_CHARS); [apply IH | reflexivity].
Qed.

Lemma b58_value_ones (k : nat) : b58_value 0 (repeat "1"%char k) = Ok 0.
Proof. induction k as [|k IH]; [reflexivity|]. exact IH. Qed.

Lemma b58_value_encode (b : list byte) : b58_value 0 (b58_encode b) = Ok (from_bytes_be b).
Proof.
  unfold b58_encode. rewrite b58_value_app, b58_value_ones. cbn [bind].
  pose proof (from_bytes_be_range b).
  rewrite b58_value_loop by (split; [lia | apply b58_fuel_enough; lia]). reflexivity.
Qed.

Lemma bytes_eqb_refl (l : list byte) : bytes_eqb l l = true.
Proof.
  unfold bytes_eqb. rewrite Nat.eqb_refl. cbn [andb].
  induction l as [|b t IH]; [reflexivity|]. cbn. rewrite (Byte.byte_dec_lb eq_refl). exact IH.
Qed.

Lemma round_length (s : list Z) (kw : Z * Z) : length (SHA256.round s kw) = length s.
Proof. destruct s as [|a [|b [|c [|d [|e [|f [|g [|h [|i s]]]]]]]]]; reflexivity. Qed.

Lemma compress_length (hs : list Z) (blk : list byte) :
  length (SHA256.compress hs blk) = length hs.
Proof.
  unfold SHA256.compress. rewrite length_map, length_combine.
  assert (forall l s, length (fold_left SHA256.round l s) = length s) as Hf.
  { induction l as [|kw l IH]; intros s; [reflexivity|]. cbn [fold_left].
    rewrite IH. apply round_length. }
  rewrite Hf. apply Nat.min_id.
Qed.

Lemma length_sha256 (m : list byte) : length (SHA256.sha256 m) = 32%nat.
Proof.
  unfold SHA256.sha256.
  assert (forall bl hs, length (fold_left SHA256.compress bl hs) = length hs) as Hf.
  { induction bl as [|blk bl IH]; intros hs; [reflexivity|]. cbn [fold_left].
    rewrite IH. apply compress_length. }
  assert (forall l : list Z, length (flat_map (be_bytes 4) l) = (4 * length l)%nat) as Hm.
  { induction l as [|z l IH]; [reflexivity|]. cbn [flat_map length].
    rewrite length_app, IH, length_be_bytes. lia. }
  rewrite Hm, Hf. reflexivity.
Qed.

(** For a payload [d] of the length the flags expect (21, 33 or 34 bytes), [base58.decode] of [base58.encode(d + checksum(d))] gives back [d + checksum(d)], and with [payload_only] the bytes of [d] after its version byte. *)
Theorem b58check_roundtrip (d : list byte) (wif wif_compressed : bool)
  (Hd : length d = ((if wif then (if wif_compressed then 38 else 37) else 25) - 4)%nat) :
  b58_decode (b58_encode (d ++ b58_checksum d)) false wif wif_compressed
    = Ok (d ++ b58_checksum d) /\
  b58_decode (b58_encode (d ++ b58_checksum d)) true wif wif_compressed = Ok (tl d).
Proof.
  set (nb := (if wif then (if wif_compressed then 38 else 37) else 25)%nat) in *.
  assert (Hnb : (25 <= nb)%nat) by (unfold nb; destruct wif, wif_compressed; lia).
  set (a := d ++ b58_checksum d).
  assert (Hc : length (b58_checksum d) = 4%nat)
    by (unfold b58_checksum; rewrite firstn_length_le; [reflexivity|];
        unfold hash256; rewrite length_sha256; lia).
  assert (La : length a = nb) by (unfold a; rewrite length_app; lia).
  unfold b58_decode. fold nb. rewrite b58_value_encode. cbn [bind].
  pose proof (from_bytes_be_range a) as Hr. rewrite La in Hr.
  rewrite to_bytes_be_ok by exact Hr. rewrite <- La, be_bytes_from, La. cbn [bind].
  replace (nb - 4)%nat with (length d) by lia. unfold a.
  rewrite firstn_app_len, skipn_app_len. unfold b58_checksum at 2. rewrite bytes_eqb_refl.
  cbn [py_assert bind]. split; [reflexivity|].
  destruct d as [|x d]; [cbn in Hd; lia|]. cbn [skipn tl app].
  replace (nb - 5)%nat with (length d) by (cbn in Hd; lia).
  rewrite firstn_app_len. reflexivity.
Qed.

Lemma str_index_absent (c : ascii) (s : list ascii) : ~ In c s -> str_index c s = Err ValueError.
Proof.
  induction s as [|d s IH]; intros H; [reflexivity|]. cbn [str_index].
  destruct (Ascii.eqb c d) eqn:E.
  - apply Ascii.eqb_eq in E. subst. exfalso. apply H. left. reflexivity.
  - rewrite IH by (intro; apply H; right; assumption). reflexivity.
Qed.

Lemma str_index_err (c : ascii) (s : list ascii) (e : PyExc) :
  str_index c s = Err e -> e = ValueError.
Proof.
  induction s as [|d s IH]; cbn [str_index]; [congruence|].
  destruct (Ascii.eqb c d); [discriminate|].
  destruct (str_index c s); cbn [bind]; [discriminate | intros H; inversion H; subst; auto].
Qed.

(** [base58.decode] raises ValueError on a string with a character outside the base-58 alphabet. *)
Theorem b58_decode_bad_char (s : list ascii) (c : ascii) (po wif wc : bool)
  (Hin : In c s) (Hbad : ~ In c BASE58_CHARS) :
  b58_decode s po wif wc = Err ValueError.
Proof.
  assert (forall n, b58_value n s = Err ValueError) as Hv.
  { induction s as [|d s IH]; intros n; [destruct Hin|]. cbn [b58_value].
    destruct Hin as [->|Hin].
    - rewrite str_index_absent by exact Hbad. reflexivity.
    - destruct (str_index d BASE58_CHARS) eqn:E; cbn [bind].
      + apply IH, Hin.
      + apply str_index_err in E. subst. reflexivity. }
  unfold b58_decode. rewrite Hv. reflexivity.
Qed.

Lemma hex_digit_ok (d : Z) : 0 <= d < 16 ->
  is_ascii_space (hex_digit d) = false /\ hexval (hex_digit d) = Some d.
Proof.
  intros H.
  assert (d = 0 \/ d = 1 \/ d = 2 \/ d = 3 \/ d = 4 \/ d = 5 \/ d = 6 \/ d = 7 \/
          d = 8 \/ d = 9 \/ d = 10 \/ d = 11 \/ d = 12 \/ d = 13 \/ d = 14 \/ d = 15) by lia.
  intuition subst; split; reflexivity.
Qed.

Lemma fromhex_hex (b : list byte) : fromhex (hex_of_bytes b) = Ok b.
Proof.
  induction b as [|x t IH]; [reflexivity|]. cbn [hex_of_bytes fromhex].
  pose proof (bZ_range x).
  destruct (hex_digit_ok (bZ x / 16)) as [-> ->]; [split; [apply Z.div_pos | apply Z.div_lt_upper_bound]; lia|].
  destruct (hex_digit_ok (bZ x mod 16)) as [_ ->]; [apply Z.mod_pos_bound; lia|].
  rewrite IH. cbn [bind]. rewrite <- Z.div_mod, byte_of_bZ by lia. reflexivity.
Qed.


Lemma merkle_pairs_ok (n : nat) : forall l, length l = n -> all_bytes l \/ all_hex l ->
  exists l', merkle_pairs l true = Ok l' /\ length l' = (n / 2)%nat /\ all_hex l'.
Proof.
  induction n as [n IH] using lt_wf_ind. intros l Hn Hl.
  destruct l as [|h1 [|h2 t]].
  - exists []. subst n. repeat split; constructor.
  - exists []. subst n. repeat split; constructor.
  - cbn [length] in Hn.
    assert (Hb : exists b, (match h1, h2 with
         | PyStr s1, PyStr s2 =>
             let* b1 := fromhex s1 in let* b2 := fromhex s2 in Ok (b1 ++ b2)
         | PyStr _, _ => Err TypeError
         | PyBytes b1, PyBytes b2 => Ok (b1 ++ b2)
         | _, _ => Err TypeError
         end) = Ok b).
    { destruct Hl as [Hl|Hl]; inversion Hl as [|? ? [b1 E1] Hl']; subst;
        inversion Hl' as [|? ? [b2 E2] Hl'']; subst.
      - exists (b1 ++ b2). reflexivity.
      - exists (b1 ++ b2). rewrite !fromhex_hex. reflexivity. }
    destruct Hb as [b Hb].
    assert (Ht : all_bytes t \/ all_hex t).
    { destruct Hl as [Hl|Hl]; [left|right]; inversion Hl as [|? ? _ Hl'];
        inversion Hl'; assumption. }
    destruct (IH (length t) ltac:(lia) t eq_refl Ht) as [r [Hr [Lr Ar]]].
    exists (PyStr (hex_of_bytes (hash256 b)) :: r). cbn [merkle_pairs].
    rewrite Hb. cbn [bind]. rewrite Hr. split; [reflexivity|]. split.
    + cbn [length]. subst n. rewrite Lr.
      replace (S (S (length t))) with (length t + 1 * 2)%nat by lia.
      rewrite Nat.div_add by lia. lia.
    + constructor; [eexists; reflexivity | exact Ar].
Qed.

(** [get_merkle_parent] on a level of byte strings or of hex strings returns [floor(n/2)] hex strings: an odd last item is dropped. *)
Theorem get_merkle_parent_halves (l : list PyVal) (Hl : all_bytes l \/ all_hex l) :
  exists l', get_merkle_parent l = Ok l' /\ length l' = (length l / 2)%nat /\ all_hex l'.
Proof. apply (merkle_pairs_ok (length l) l eq_refl Hl). Qed.

Lemma construct_loop_hex (fuel : nat) : forall l rest,
  (1 <= length l <= fuel)%nat -> all_hex l ->
  exists b lv, construct_loop fuel (l :: rest) = Ok (Some ([PyStr (hex_of_bytes b)] :: lv)).
Proof.
  induction fuel as [|f IH]; intros l rest Hlen Hl; [lia|]. cbn [construct_loop].
  destruct (length l =? 1)%nat eqn:E.
  - apply Nat.eqb_eq in E. destruct l as [|v [|w t]]; cbn in E; try lia.
    inversion Hl as [|? ? [b Hb] _]; subst. exists b, rest. reflexivity.
  - apply Nat.eqb_neq in E.
    destruct (merkle_pairs_ok (length l) l eq_refl (or_intror Hl)) as [p [Hp [Lp Ap]]].
    unfold get_merkle_parent. rewrite Hp. cbn [bind].
    apply IH; [|exact Ap]. rewrite Lp. split.
    + apply Nat.div_le_lower_bound; lia.
    + apply Nat.lt_succ_r. apply (Nat.lt_le_trans _ (length l)); [apply Nat.div_lt|]; lia.
Qed.

Lemma map_fromhex_ok (hashes : list string) :
  Forall (fun h => exists b, fromhex h = Ok b) hashes ->
  exists hs, map_res (fun h => let* b := fromhex h in Ok (PyBytes (rev b))) hashes = Ok hs /\
    length hs = length hashes /\ all_bytes hs.
Proof.
  induction 1 as [|h t [b Hb] _ [hs [Hhs [Lhs Ahs]]]].
  - exists []. repeat split. constructor.
  - exists (PyBytes (rev b) :: hs). cbn [map_res]. rewrite Hb. cbn [bind]. rewrite Hhs.
    split; [reflexivity|]. split; [cbn; lia|]. constructor; [eexists; reflexivity | exact Ahs].
Qed.

(** [MerkleTree.construct] on a non-empty list of hex strings terminates with a top level of one hex string, and [root] is that one-element level itself. *)
Theorem construct_nonempty (hashes : list string) (Hne : hashes <> [])
  (Hhex : Forall (fun h => exists b, fromhex h = Ok b) hashes) :
  exists t b lv, construct hashes = Ok (Some t) /\
    tree t = [PyStr (hex_of_bytes b)] :: lv /\ root t = PyList [PyStr (hex_of_bytes b)].
Proof.
  destruct (map_fromhex_ok hashes Hhex) as [hs [Hhs [Lhs Ahs]]].
  unfold construct. rewrite Hhs. cbn [bind].
  set (hs' := if Nat.odd (length hs) then hs ++ [last hs (PyBytes [])] else hs).
  assert (Hlen : (2 <= length hs')%nat /\ Nat.even (length hs') = true).
  { destruct hashes as [|h0 hashes]; [congruence|]. cbn [length] in Lhs. unfold hs'.
    destruct (Nat.odd (length hs)) eqn:Od.
    - rewrite length_app. cbn [length]. rewrite Nat.add_1_r, Nat.even_succ. split; [lia|exact Od].
    - rewrite <- Nat.negb_even in Od. apply negb_false_iff in Od. split; [|exact Od].
      rewrite Lhs in Od |- *. destruct hashes; [discriminate|cbn; lia]. }
  assert (Ab : all_bytes hs').
  { unfold hs'. destruct (Nat.odd (length hs)); [|exact Ahs].
    apply Forall_app. split; [exact Ahs|]. constructor; [|constructor].
    destruct hs as [|v hs] using rev_ind; [eexists; reflexivity|].
    rewrite last_last. apply Forall_app in Ahs. destruct Ahs as [_ Ahs].
    inversion Ahs; assumption. }
  remember (length hs') as n eqn:Hn.
  destruct n as [|[|n]]; [lia|lia|].
  change (construct_loop (S (S (S n))) [hs']) with
    (if (length hs' =? 1)%nat then Ok (Some [hs'])
     else let* parent := get_merkle_parent hs' in construct_loop (S (S n)) [parent; hs']).
  rewrite <- Hn. cbn [Nat.eqb].
  destruct (merkle_pairs_ok (S (S n)) hs' (eq_sym Hn) (or_introl Ab)) as [p [Hp [Lp Ap]]].
  unfold get_merkle_parent. rewrite Hp. cbn [bind].
  assert (Hpl : (1 <= length p <= S (S n))%nat).
  { rewrite Lp. split.
    - apply Nat.div_le_lower_bound; lia.
    - apply Nat.lt_le_incl, Nat.div_lt; lia. }
  destruct (construct_loop_hex (S (S n)) p [hs'] Hpl Ap) as [b [lv Hlv]].
  rewrite Hlv. cbn. exists (mkMerkleTree ([PyStr (hex_of_bytes b)] :: lv) (PyList [PyStr (hex_of_bytes b)])), b, lv.
  repeat split.
Qed.

(** [MerkleTree.construct([])] never terminates: from an empty level, the loop never reaches a level of one item, whatever the number of iterations. *)
Theorem construct_empty_level_loops (fuel : nat) (levels : list (list PyVal)) :
  construct_loop fuel ([] :: levels) = Ok None.
Proof.
  revert levels. induction fuel as [|f IH]; intros levels; [reflexivity|].
  cbn [construct_loop length Nat.eqb]. unfold get_merkle_parent. cbn [merkle_pairs bind].
  apply IH.
Qed.



Lemma modinv_unique (p b m1 m2 : Z) : Z.prime p -> b mod p <> 0 ->
  0 <= m1 < p -> 0 <= m2 < p -> (m1 * b) mod p = (m2 * b) mod p -> m1 = m2.
Proof.
  intros Hp Hb H1 H2 H. pose proof (Z.prime_ge_2 p Hp).
  assert (Hd : (p | (m1 - m2) * b)).
  { apply Z.mod_divide; [lia|]. rewrite Z.mul_sub_distr_r, Zminus_mod, H, Z.sub_diag.
    apply Z.mod_0_l. lia. }
  destruct (proj1 (Z.divide_prime_mul (m1 - m2) b p Hp) Hd) as [[k Hk]|Hk].
  - assert (k = 0) by nia. subst k. lia.
  - exfalso. apply Hb. apply Z.mod_divide; [lia | exact Hk].
Qed.

Lemma modulardiv_range (a b p : Z) : 0 < p -> 0 <= modulardiv a b p < p.
Proof. intros Hp. unfold modulardiv. apply Z.mod_pos_bound. exact Hp. Qed.

Lemma mod_opp_congr (a b p : Z) : a mod p = b mod p -> (- a) mod p = (- b) mod p.
Proof.
  intros H. replace (- a) with (0 - a) by ring. replace (- b) with (0 - b) by ring.
  rewrite Zminus_mod, H, <- Zminus_mod. reflexivity.
Qed.

Lemma mod_diff_zero (a b p : Z) : p <> 0 -> (a - b) mod p = 0 -> a mod p = b mod p.
Proof.
  intros Hp H. apply Z.mod_divide in H; [|exact Hp]. destruct H as [k Hk].
  replace a with (b + k * p) by lia. apply Z.mod_add. exact Hp.
Qed.

(** Over a prime field, the addition of two points of one curve whose [x] differ modulo [p] is commutative. *)
Theorem add_chord_comm (c : Curve) (x1 y1 x2 y2 : Z)
  (Hp : Z.prime (cp c)) (Hx : (x1 - x2) mod cp c <> 0) :
  add (mkPoint (Some c) (Some x1) (Some y1)) (mkPoint (Some c) (Some x2) (Some y2)) =
  add (mkPoint (Some c) (Some x2) (Some y2)) (mkPoint (Some c) (Some x1) (Some y1)).
Proof.
  set (p := cp c) in *. pose proof (Z.prime_ge_2 p Hp) as Hp2.
  assert (Hne : x1 <> x2) by (intro; subst; rewrite Z.sub_diag, Z.mod_0_l in Hx; lia).
  assert (Hx' : (x2 - x1) mod p <> 0).
  { intro E. apply Hx. replace (x1 - x2) with (- (x2 - x1)) by ring.
    rewrite Z_mod_zero_opp_full by exact E. reflexivity. }
  set (m1 := modulardiv (y1 - y2) (x1 - x2) p).
  set (m2 := modulardiv (y2 - y1) (x2 - x1) p).
  assert (S1 : (m1 * (x1 - x2)) mod p = (y1 - y2) mod p) by (apply modulardiv_mul_inv; assumption).
  assert (S2 : (m2 * (x2 - x1)) mod p = (y2 - y1) mod p) by (apply modulardiv_mul_inv; assumption).
  assert (Hm : m1 = m2).
  { apply (modinv_unique p (x1 - x2)); try assumption;
      try (apply modulardiv_range; lia).
    rewrite S1. replace (m2 * (x1 - x2)) with (- (m2 * (x2 - x1))) by ring.
    replace (y1 - y2) with (- (y2 - y1)) by ring.
    apply mod_opp_congr. symmetry. exact S2. }
  assert (Hy : (- (m1 * ((m1 ^ 2 - x1 - x2) mod p - x1) + y1)) mod p =
               (- (m1 * ((m1 ^ 2 - x2 - x1) mod p - x2) + y2)) mod p).
  { replace ((m1 ^ 2 - x2 - x1) mod p) with ((m1 ^ 2 - x1 - x2) mod p) by (f_equal; ring).
    apply mod_diff_zero; [lia|].
    replace (- (m1 * ((m1 ^ 2 - x1 - x2) mod p - x1) + y1) -
             - (m1 * ((m1 ^ 2 - x1 - x2) mod p - x2) + y2))
      with (m1 * (x1 - x2) - (y1 - y2)) by ring.
    rewrite Zminus_mod, S1, Z.sub_diag. apply Z.mod_0_l. lia. }
  unfold add. cbn [curve px py].
  replace (x1 =? x2) with false by (symmetry; apply Z.eqb_neq; exact Hne).
  replace (x2 =? x1) with false by (symmetry; apply Z.eqb_neq; congruence).
  cbn [andb bind]. fold p. fold m1 m2. rewrite <- Hm, Hy. do 3 f_equal. f_equal. ring.
Qed.

(** [0 * INF] is INF, and [n * INF] raises AttributeError for every [n >= 1]. *)
Theorem rmul_inf (n : N) :
  rmul n INF = match n with N0 => Ok INF | Npos _ => Err AttributeError end.
Proof. destruct n as [|p]; [reflexivity|]. destruct p; reflexivity. Qed.

Lemma to_bytes_be_256 (i : Z) : 0 <= i < 2 ^ 256 -> to_bytes_be i 32 = Ok (be_bytes 32 i).
Proof. intros H. apply to_bytes_be_ok. rewrite pow256_32. exact H. Qed.

(** For [1 <= r, s < 2^256], [Signature.encode] gives 8 to 72 bytes starting with 0x30 and the length of the rest, and decoding them followed by one sighash byte gives [(r, s)] back. *)
Theorem sig_encode_der (r s : Z) (h : byte)
  (Hr : 1 <= r < 2 ^ 256) (Hs : 1 <= s < 2 ^ 256) :
  exists e, sig_encode r s = Ok e /\ (8 <= length e <= 72)%nat /\
    hd_error e = Some x30 /\ bZ (nth 1 e x00) = Z.of_nat (length e) - 2 /\
    sig_decode (e ++ [h]) = Ok (r, s).
Proof.
  destruct (der_int_ok r Hr) as [rb [Hrb [Hfr Hlr]]].
  destruct (der_int_ok s Hs) as [sb [Hsb [Hfs Hls]]].
  exists (der_bytes rb sb). split.
  - unfold sig_encode. rewrite !to_bytes_be_256 by lia.
    cbn [bind]. rewrite Hrb. cbn [bind]. rewrite Hsb. cbn [bind].
    rewrite !py_bytes_ok by (intros i [<-|[<-|[]]]; lia).
    cbn [bind]. unfold der_bytes. rewrite !length_app, !length_map. cbn [length map].
    rewrite py_bytes_ok by (intros i [<-|[<-|[]]]; lia).
    cbn [bind map]. replace (2 + (length rb + (2 + length sb)))%nat
      with (4 + length rb + length sb)%nat by lia. reflexivity.
  - unfold der_bytes. rewrite !length_app. cbn [length app hd_error nth].
    split; [lia|]. split; [reflexivity|]. split.
    + rewrite bZ_byte_of_Z by lia. lia.
    + rewrite <- Hfr, <- Hfs. apply sig_decode_der_sighash; assumption.
Qed.

(** [Signature.encode] raises IndexError when [r] or [s] is 0 (and the other one is in range). *)
Theorem sig_encode_zero (r s : Z) :
  (0 <= s < 2 ^ 256 -> sig_encode 0 s = Err IndexError) /\
  (1 <= r < 2 ^ 256 -> sig_encode r 0 = Err IndexError).
Proof.
  split; intros H; unfold sig_encode.
  - rewrite (to_bytes_be_256 0), (to_bytes_be_256 s) by lia. reflexivity.
  - destruct (der_int_ok r H) as [rb [Hrb _]].
    rewrite (to_bytes_be_256 r), (to_bytes_be_256 0) by lia. cbn [bind].
    rewrite Hrb. reflexivity.
Qed.



(** [validate_signature] with [s = N] passes its range checks and returns False: [u = v = 0], so [R] is the point with no [x]. *)
Theorem validate_signature_s_eq_n (p : Point) (m : list byte) (r : Z)
  (Hr : 1 <= r <= Secp256k1.N) :
  validate_signature p m r Secp256k1.N = Ok false.
Proof.
  assert (HN : 2 < Secp256k1.N) by reflexivity.
  assert (Hz : forall a, modulardiv a Secp256k1.N Secp256k1.N = 0).
  { intros a. unfold modulardiv. rewrite pow_mod_eq by lia.
    rewrite <- Z.mod_pow_l, Z.mod_same, Z.pow_0_l, Z.mod_0_l by lia.
    rewrite Z.mul_0_r. apply Z.mod_0_l. lia. }
  unfold validate_signature.
  rewrite (proj2 (andb_true_iff _ _)) by (rewrite Z.leb_le, Z.leb_le; lia). cbn [py_assert bind].
  rewrite (proj2 (andb_true_iff _ _)) by (rewrite Z.leb_le, Z.leb_le; lia). cbn [py_assert bind].
  cbv zeta. rewrite !Hz. reflexivity.
Qed.

Lemma prime_7 : Z.prime 7.
Proof.
  split; [lia|]. intros n Hn [k Hk].
  assert (n = 2 \/ n = 3 \/ n = 4 \/ n = 5 \/ n = 6) by lia.
  intuition subst; lia.
Qed.

Lemma modulardiv_inverse_witness :
  Z.prime 7 /\ 3 mod 7 <> 0 /\ (modulardiv 5 3 7 * 3) mod 7 = 5 mod 7.
Proof.
  split; [exact prime_7|]. split; [discriminate|].
  apply (modulardiv_inverse 5 3 7 prime_7). discriminate.
Defined.

Lemma modularsqrt_square_witness :
  Z.prime 7 /\ 7 mod 4 = 3 /\ 3 ^ 2 mod 7 = 2 mod 7 /\ modularsqrt 2 7 ^ 2 mod 7 = 2 mod 7.
Proof.
  split; [exact prime_7|]. split; [reflexivity|]. split; [reflexivity|].
  apply (modularsqrt_square 2 3 7 prime_7); reflexivity.
Defined.

Lemma encode_decode_int_witness :
  0 <= 258 < 256 ^ Z.of_nat 2 /\
  exists b, encode_int 258 2 Big = Ok b /\ length b = 2%nat /\
    decode_int (b ++ [x01]) 2 Big = Ok (258, [x01]).
Proof.
  split; [cbn; lia|]. apply (encode_decode_int 258 2 Big [x01]). cbn; lia.
Defined.

Lemma varint_roundtrip_witness :
  0 <= 300 < 2 ^ 64 /\
  exists b, encode_varint 300 = Ok b /\
    Z.of_nat (length b) = (if 300 <? 0xfd then 1 else if 300 <? 0x10000 then 3
                else if 300 <? 0x100000000 then 5 else 9) /\
    decode_varint (b ++ [x07]) = Ok (300, [x07]).
Proof. split; [lia|]. apply (varint_roundtrip 300 [x07]). lia. Defined.

Lemma script_roundtrip_witness :
  forallb simple_cmd [Op 0; Push [x01; x02]; Op 118] = true /\
  encode_cmds [Op 0; Push [x01; x02]; Op 118] = Ok [x00; x02; x01; x02; x76] /\
  Z.of_nat (length [x00; x02; x01; x02; x76]) < 2 ^ 64 /\
  exists e, script_encode [Op 0; Push [x01; x02]; Op 118] = Ok e /\
    script_decode (e ++ [xff]) = Some ([Op 0; Push [x01; x02]; Op 118], [xff]).
Proof.
  split; [reflexivity|]. split; [vm_compute; reflexivity|]. split; [cbn; lia|].
  apply (script_roundtrip _ [x00; x02; x01; x02; x76] [xff]);
    [reflexivity | vm_compute; reflexivity | cbn; lia].
Defined.

Lemma script_pushdata1_miscount_witness :
  (76 <= length (repeat x00 76) <= 255)%nat /\
  exists e, script_encode [Push (repeat x00 76)] = Ok e /\
    script_decode e = Some ([Push (repeat x00 76); Op 0], []).
Proof.
  split; [rewrite repeat_length; lia|].
  apply script_pushdata1_miscount. rewrite repeat_length. lia.
Defined.

Lemma p2pkh_script_encoding_witness :
  length (repeat x00 20) = 20%nat /\
  exists cmds, p2pkh_script (repeat x00 20) = Ok cmds /\
    script_encode cmds = Ok ([x19; x76; xa9; x14] ++ repeat x00 20 ++ [x88; xac]).
Proof. split; [reflexivity|]. apply p2pkh_script_encoding. reflexivity. Defined.


Lemma pubkey_uncompressed_roundtrip_witness :
  0 <= 1 < 2 ^ 256 /\ 0 <= 2 < 2 ^ 256 /\
  exists e, pubkey_encode (mkPoint (Some Secp256k1.E) (Some 1) (Some 2)) false = Ok e /\
    length e = 65%nat /\
    pubkey_decode e = Ok (mkPoint (Some Secp256k1.E) (Some 1) (Some 2)).
Proof.
  split; [lia|]. split; [lia|]. apply pubkey_uncompressed_roundtrip; lia.
Defined.

Lemma pubkey_compressed_parity_witness :
  0 <= 1 < 2 ^ 256 /\
  exists e y', pubkey_encode (mkPoint None (Some 1) (Some 5)) true = Ok e /\
    length e = 33%nat /\
    bZ (hd x00 e) = (if 5 mod 2 =? 0 then 2 else 3) /\
    pubkey_decode e = Ok (mkPoint (Some Secp256k1.E) (Some 1) (Some y')) /\
    y' mod 2 = 5 mod 2 /\ 0 <= y' <= Secp256k1.P.
Proof. split; [lia|]. apply pubkey_compressed_parity. lia. Defined.

Lemma b58check_roundtrip_witness :
  length (repeat x00 21) = ((if false then (if false then 38 else 37) else 25) - 4)%nat /\
  b58_decode (b58_encode (repeat x00 21 ++ b58_checksum (repeat x00 21))) false false false
    = Ok (repeat x00 21 ++ b58_checksum (repeat x00 21)) /\
  b58_decode (b58_encode (repeat x00 21 ++ b58_checksum (repeat x00 21))) true false false
    = Ok (tl (repeat x00 21)).
Proof. split; [reflexivity|]. apply b58check_roundtrip. reflexivity. Defined.

Lemma b58_decode_bad_char_witness :
  In "0"%char ["0"%char] /\ ~ In "0"%char BASE58_CHARS /\
  b58_decode ["0"%char] true false false = Err ValueError.
Proof.
  assert (Hb : ~ In "0"%char BASE58_CHARS) by (cbn; intuition discriminate).
  split; [left; reflexivity|]. split; [exact Hb|].
  apply (b58_decode_bad_char _ "0"%char); [left; reflexivity | exact Hb].
Defined.

Lemma get_merkle_parent_halves_witness :
  (all_bytes [PyBytes [x01]; PyBytes [x02]; PyBytes [x03]] \/
   all_hex [PyBytes [x01]; PyBytes [x02]; PyBytes [x03]]) /\
  exists l', get_merkle_parent [PyBytes [x01]; PyBytes [x02]; PyBytes [x03]] = Ok l' /\
    length l' = (length [PyBytes [x01]; PyBytes [x02]; PyBytes [x03]] / 2)%nat /\ all_hex l'.
Proof.
  assert (H : all_bytes [PyBytes [x01]; PyBytes [x02]; PyBytes [x03]])
    by (repeat constructor; eexists; reflexivity).
  split; [left; exact H|]. apply get_merkle_parent_halves. left. exact H.
Defined.

Lemma construct_nonempty_witness :
  ["aa"%string] <> [] /\ Forall (fun h => exists b, fromhex h = Ok b) ["aa"%string] /\
  exists t b lv, construct ["aa"%string] = Ok (Some t) /\
    tree t = [PyStr (hex_of_bytes b)] :: lv /\ root t = PyList [PyStr (hex_of_bytes b)].
Proof.
  assert (H : Forall (fun h => exists b, fromhex h = Ok b) ["aa"%string])
    by (repeat constructor; eexists; vm_compute; reflexivity).
  split; [discriminate|]. split; [exact H|].
  apply construct_nonempty; [discriminate | exact H].
Defined.


Lemma add_chord_comm_witness :
  Z.prime (cp toy) /\ (1 - 2) mod cp toy <> 0 /\
  add (mkPoint (Some toy) (Some 1) (Some 3)) (mkPoint (Some toy) (Some 2) (Some 4)) =
  add (mkPoint (Some toy) (Some 2) (Some 4)) (mkPoint (Some toy) (Some 1) (Some 3)).
Proof.
  split; [exact prime_7|]. split; [discriminate|].
  apply add_chord_comm; [exact prime_7 | discriminate].
Defined.

Lemma sig_encode_der_witness :
  1 <= 1 < 2 ^ 256 /\ 1 <= 2 < 2 ^ 256 /\
  exists e, sig_encode 1 2 = Ok e /\ (8 <= length e <= 72)%nat /\
    hd_error e = Some x30 /\ bZ (nth 1 e x00) = Z.of_nat (length e) - 2 /\
    sig_decode (e ++ [x01]) = Ok (1, 2).
Proof. split; [lia|]. split; [lia|]. apply sig_encode_der; lia. Defined.

Lemma validate_signature_s_eq_n_witness :
  1 <= 1 <= Secp256k1.N /\ validate_signature Secp256k1.G [] 1 Secp256k1.N = Ok false.
Proof.
  assert (H : 1 <= 1 <= Secp256k1.N) by (split; [lia | apply Z.leb_le; reflexivity]).
  split; [exact H|]. apply validate_signature_s_eq_n. exact H.
Defined.

Lemma encode_int_inv (i : Z) (n : nat) (e : Endian) (b : list byte) :
  encode_int i n e = Ok b -> b = endian_bytes i n e /\ 0 <= i < 256 ^ Z.of_nat n.
Proof.
  unfold encode_int, to_bytes, to_bytes_be.
  destruct ((0 <=? i) && (i <? 256 ^ Z.of_nat n)) eqn:H; [|destruct e; discriminate].
  apply andb_true_iff in H. rewrite Z.leb_le, Z.ltb_lt in H.
  destruct e; cbn; intros E; inversion E; auto.
Qed.

Lemma decode_int_endian (i : Z) (n : nat) (e : Endian) (rest : list byte) :
  0 <= i < 256 ^ Z.of_nat n -> decode_int (endian_bytes i n e ++ rest) n e = Ok (i, rest).
Proof.
  intros H. rewrite <- (length_endian_bytes i n e) at 2.
  rewrite decode_int_app, from_endian_bytes by exact H. reflexivity.
Qed.

Lemma read_app_len (n : nat) (l t : list byte) : length l = n -> read n (l ++ t) = (l, t).
Proof. intros <-. apply read_app. Qed.

Lemma encode_cmds_bound (cmds : list Cmd) :
  forallb simple_cmd cmds = true ->
  exists body, encode_cmds cmds = Ok body /\ (length body <= 75 * length cmds)%nat.
Proof.
  induction cmds as [|c t IH]; intros Hs; [exists []; split; [reflexivity|cbn; lia]|].
  cbn [forallb] in Hs. apply andb_true_iff in Hs as [Hc Hs].
  destruct (IH Hs) as [r [Er Hr]].
  destruct c as [k|b]; cbn [simple_cmd] in Hc; cbn [encode_cmds encode_cmd].
  - rewrite !andb_true_iff, Z.leb_le, Z.ltb_lt in Hc.
    rewrite encode_int1 by lia. cbn [bind]. rewrite Er. cbn [bind].
    eexists; split; [reflexivity|]. cbn [length app]. lia.
  - rewrite andb_true_iff, !Nat.leb_le in Hc.
    replace (Z.of_nat (length b) <? 75) with true by (symmetry; apply Z.ltb_lt; lia).
    rewrite encode_int1 by lia. cbn [bind]. rewrite Er. cbn [bind].
    eexists; split; [reflexivity|]. rewrite !length_app. cbn [length]. lia.
Qed.

Lemma script_rt (cmds : list Cmd) (rest : list byte) :
  simple_script cmds = true ->
  exists e, script_encode cmds = Ok e /\ script_decode (e ++ rest) = Some (cmds, rest).
Proof.
  unfold simple_script. intros H. apply andb_true_iff in H as [Hs Hn].
  rewrite Z.ltb_lt in Hn.
  destruct (encode_cmds_bound cmds Hs) as [body [He Hb]].
  destruct (encode_varint_decode (Z.of_nat (length body)) (body ++ rest)) as [v [Hv [_ Hd]]]; [lia|].
  exists (v ++ body). split.
  - unfold script_encode. rewrite He. cbn [bind]. rewrite Hv. reflexivity.
  - unfold script_decode. rewrite <- app_assoc, Hd.
    destruct (Z.of_nat (length body) =? 0) eqn:H0.
    + apply Z.eqb_eq in H0. destruct body; [|cbn in H0; lia].
      rewrite (encode_cmds_nil cmds Hs He). reflexivity.
    + apply Z.eqb_neq in H0.
      apply (script_decode_loop_encode cmds body _ _ 0 rest []); auto; lia.
Qed.

(** [Block.encode] gives the 80-byte header, and [Block.decode] reads the
    block back from it, leaving the rest of the stream unread. *)
Theorem block_roundtrip (blk : Block) (rest : list byte)
  (Hv : 0 <= bversion blk < 2 ^ 32) (Ht : 0 <= timestamp blk < 2 ^ 32)
  (Hp : length (prev_block blk) = 32%nat) (Hm : length (merkle_root blk) = 32%nat)
  (Hb : length (bits blk) = 4%nat) (Hn : length (nonce blk) = 4%nat) :
  exists e, block_encode blk = Ok e /\ length e = 80%nat /\
    block_decode (e ++ rest) = Ok (blk, rest).
Proof.
  destruct blk as [v pb mr t bs nc]; cbn [bversion timestamp prev_block merkle_root bits nonce] in *.
  unfold block_encode. cbn [bversion timestamp prev_block merkle_root bits nonce].
  unfold encode_int. rewrite !to_bytes_ok by (cbn; lia). cbn [bind].
  eexists; split; [reflexivity|]. split.
  - rewrite !length_app, !length_rev, !length_endian_bytes. lia.
  - unfold block_decode. rewrite <- !app_assoc.
    rewrite decode_int_endian by (cbn; lia). cbn [bind fst snd].
    rewrite read_app_len by (rewrite length_rev; exact Hp). cbn [fst snd].
    rewrite read_app_len by (rewrite length_rev; exact Hm). cbn [fst snd].
    rewrite decode_int_endian by (cbn; lia). cbn [bind fst snd].
    rewrite read_app_len by exact Hb. cbn [fst snd].
    rewrite read_app_len by exact Hn. cbn [fst snd].
    rewrite !rev_involutive. reflexivity.
Qed.

Lemma decode_inputs_encode (ins : list TxIn) (idx : Z) :
  forallb tx_input_ok ins = true ->
  exists ei, encode_inputs_from (-1) idx ins = Ok ei /\
    forall st, decode_inputs (length ins) (ei ++ st) = Some (Ok (ins, st)).
Proof.
  revert idx. induction ins as [|inp t IH]; intros idx Hok.
  - exists []. split; reflexivity.
  - cbn [forallb] in Hok. apply andb_true_iff in Hok as [Hi Hok].
    destruct (IH (idx + 1) Hok) as [r [Er Dr]].
    destruct inp as [ptx pi sc sq]. unfold tx_input_ok in Hi. cbn [prev_tx prev_idx script_sig seq] in Hi.
    rewrite !andb_true_iff, Nat.eqb_eq, !Z.leb_le, !Z.ltb_lt in Hi.
    destruct Hi as [[[[[Hp Hpi1] Hpi2] Hsc] Hsq1] Hsq2].
    destruct (script_rt sc [] Hsc) as [s [Es _]].
    cbn [encode_inputs_from]. unfold encode_input. cbn [script_sig prev_idx seq prev_tx].
    change ((-1 =? -1) || (-1 =? idx)) with true. cbv iota. rewrite Es. cbn [bind].
    unfold encode_int. rewrite !to_bytes_ok by (cbn; lia). cbn [bind]. rewrite Er. cbn [bind].
    eexists; split; [reflexivity|]. intros st.
    destruct (script_rt sc (endian_bytes sq 4 Little ++ r ++ st) Hsc) as [s' [Es' Ds]].
    rewrite Es in Es'. inversion Es'; subst s'. clear Es'.
    cbn [length decode_inputs]. rewrite <- !app_assoc.
    rewrite read_app_len by (rewrite length_rev; exact Hp). cbn [fst snd dres dbind].
    rewrite decode_int_endian by (cbn; lia). cbn [fst snd dres dbind].
    rewrite Ds. cbn [fst snd dopt dbind].
    rewrite decode_int_endian by (cbn; lia). cbn [fst snd dres dbind].
    rewrite Dr. cbn [fst snd dbind]. rewrite rev_involutive. reflexivity.
Qed.

Lemma decode_outputs_encode (outs : list TxOut) :
  forallb tx_output_ok outs = true ->
  exists eo, encode_outputs_list outs = Ok eo /\
    forall st, decode_outputs (length outs) (eo ++ st) = Some (Ok (outs, st)).
Proof.
  induction outs as [|o t IH]; intros Hok.
  - exists []. split; reflexivity.
  - cbn [forallb] in Hok. apply andb_true_iff in Hok as [Ho Hok].
    destruct (IH Hok) as [r [Er Dr]].
    destruct o as [a sc]. unfold tx_output_ok in Ho. cbn [amount script_pubkey] in Ho.
    rewrite !andb_true_iff, Z.leb_le, Z.ltb_lt in Ho. destruct Ho as [[Ha1 Ha2] Hsc].
    destruct (script_rt sc [] Hsc) as [s [Es _]].
    cbn [encode_outputs_list amount script_pubkey]. unfold encode_int.
    rewrite to_bytes_ok by (cbn; lia). cbn [bind]. rewrite Es. cbn [bind]. rewrite Er. cbn [bind].
    eexists; split; [reflexivity|]. intros st.
    destruct (script_rt sc (r ++ st) Hsc) as [s' [Es' Ds]].
    rewrite Es in Es'. inversion Es'; subst s'. clear Es'.
    cbn [length decode_outputs]. rewrite <- !app_assoc.
    rewrite decode_int_endian by (cbn; lia). cbn [fst snd dres dbind].
    rewrite Ds. cbn [fst snd dopt dbind].
    rewrite Dr. reflexivity.
Qed.

(** [Tx.decode] reads back what [Tx.encode()] wrote (no [sig_idx]), and
    leaves the rest of the stream unread: for at least one input, 32-byte
    [prev_tx], 4-byte [version], [prev_idx], [seq] and [locktime], 8-byte
    amounts and scripts that [Script.decode] reads back. *)
Theorem tx_roundtrip (tx : Tx) (rest : list byte)
  (Hv : 0 <= tx_version tx < 2 ^ 32) (Hl : 0 <= locktime tx < 2 ^ 32)
  (Hi : inputs tx <> []) (Hni : Z.of_nat (length (inputs tx)) < 2 ^ 64)
  (Hno : Z.of_nat (length (outputs tx)) < 2 ^ 64)
  (Hin : forallb tx_input_ok (inputs tx) = true)
  (Hout : forallb tx_output_ok (outputs tx) = true) :
  exists e, tx_encode tx (-1) = Ok e /\ tx_decode (e ++ rest) = Some (Ok (tx, rest)).
Proof.
  destruct tx as [v ins outs lt]; cbn [tx_version inputs outputs locktime] in *.
  destruct (decode_inputs_encode ins 0 Hin) as [ei [Ei Di]].
  destruct (decode_outputs_encode outs Hout) as [eo [Eo Do]].
  destruct (encode_varint_decode (Z.of_nat (length outs)) (eo ++ endian_bytes lt 4 Little ++ rest))
    as [no [Eno [_ Dno]]]; [lia|].
  destruct (encode_varint_decode (Z.of_nat (length ins))
              (ei ++ no ++ eo ++ endian_bytes lt 4 Little ++ rest))
    as [ni [Eni [_ Dni]]]; [lia|].
  unfold tx_encode, encode_inputs, encode_outputs. cbn [tx_version inputs outputs locktime].
  unfold encode_int. rewrite !to_bytes_ok by (cbn; lia).
  rewrite Eni, Ei, Eno, Eo. change (negb (-1 =? -1)) with false. cbn [bind].
  eexists; split; [reflexivity|].
  unfold tx_decode. rewrite <- !app_assoc, app_nil_l.
  rewrite decode_int_endian by (cbn; lia). cbn [fst snd dres dbind].
  rewrite Dni. cbn [fst snd dres dbind].
  replace (Z.of_nat (length ins) =? 0) with false
    by (symmetry; apply Z.eqb_neq; destruct ins; [contradiction|cbn; lia]).
  cbn [fst snd dres dbind]. rewrite Nat2Z.id, Di. cbn [fst snd dres dbind].
  rewrite Dno. cbn [fst snd dres dbind]. rewrite Nat2Z.id, Do. cbn [fst snd dres dbind].
  rewrite decode_int_endian by (cbn; lia). reflexivity.
Qed.

Lemma Ok_inj {A} (a b : A) : Ok a = Ok b -> a = b.
Proof. congruence. Qed.

Lemma encode_varint_head (i : Z) (b : list byte) :
  encode_varint i = Ok b -> exists h t, b = h :: t /\ (h = x01 -> i = 1).
Proof.
  unfold encode_varint.
  destruct (i <? 0xfd) eqn:H1; [|destruct (i <? 0x10000) eqn:H2;
    [|destruct (i <? 0x100000000) eqn:H3; [|destruct (i <? 0x10000000000000000) eqn:H4]]].
  - unfold py_bytes. cbn [forallb].
    destruct ((0 <=? i) && (i <? 256) && true) eqn:Hr; [|discriminate].
    rewrite !andb_true_iff, Z.leb_le, Z.ltb_lt in Hr.
    intros E; inversion E; subst b. exists (byte_of_Z i), []. split; [reflexivity|].
    intros Hh. rewrite <- (bZ_byte_of_Z i) by lia. rewrite Hh. reflexivity.
  - destruct (encode_int i 2 Little); cbn [bind]; [|discriminate].
    intros E; inversion E; subst b. eexists _, _; split; [reflexivity|discriminate].
  - destruct (encode_int i 4 Little); cbn [bind]; [|discriminate].
    intros E; inversion E; subst b. eexists _, _; split; [reflexivity|discriminate].
  - destruct (encode_int i 8 Little); cbn [bind]; [|discriminate].
    intros E; inversion E; subst b. eexists _, _; split; [reflexivity|discriminate].
  - discriminate.
Qed.

(** A transaction without inputs cannot be read back: [Tx.encode()]
    writes a zero input count, which [Tx.decode] takes for the segwit
    marker, and the byte it then asserts to be [0x01] is the first byte
    of the output count, which is not [0x01] unless there is exactly one
    output. *)
Theorem tx_decode_no_inputs (tx : Tx) (e rest : list byte)
  (Hi : inputs tx = []) (Ho : length (outputs tx) <> 1%nat)
  (He : tx_encode tx (-1) = Ok e) :
  tx_decode (e ++ rest) = Some (Err AssertionError).
Proof.
  destruct tx as [v ins outs lt]; cbn [inputs outputs] in Hi, Ho; subst ins.
  unfold tx_encode, encode_inputs, encode_outputs in He. cbn [tx_version inputs outputs locktime] in He.
  destruct (encode_int v 4 Little) as [vb|] eqn:Ev; [|discriminate]. cbn [bind] in He.
  apply encode_int_inv in Ev as [-> Hv].
  change (encode_varint (Z.of_nat (length (@nil TxIn)))) with (Ok [x00] : Res (list byte)) in He.
  change (encode_inputs_from (-1) 0 []) with (Ok [] : Res (list byte)) in He. cbn [bind] in He.
  destruct (encode_varint (Z.of_nat (length outs))) as [no|] eqn:Eno; [|discriminate].
  cbn [bind] in He.
  destruct (encode_outputs_list outs) as [eo|]; [|discriminate]. cbn [bind] in He.
  destruct (encode_int lt 4 Little) as [lb|]; [|discriminate].
  change (negb (-1 =? -1)) with false in He. cbn [bind] in He.
  apply Ok_inj in He. subst e.
  apply encode_varint_head in Eno as [h [t [-> Hh]]].
  unfold tx_decode. rewrite <- !app_assoc.
  rewrite decode_int_endian by exact Hv. cbn [fst snd dres dbind].
  cbn [app]. change (decode_varint (x00 :: ?s)) with (Ok (0, s) : Res (Z * list byte)).
  cbn [fst snd]. change (0 =? 0) with true. cbv iota zeta.
  rewrite read1. cbn [fst snd].
  replace (bytes_eqb [h] [x01]) with false.
  - reflexivity.
  - unfold bytes_eqb. cbn [length combine forallb fst snd]. rewrite Nat.eqb_refl, andb_true_r.
    destruct (Byte.eqb h x01) eqn:Hb; [|reflexivity].
    apply Byte.byte_dec_bl in Hb. apply Hh in Hb. lia.
Qed.

Lemma encode_inputs_from_other (k : Z) (ins : list TxIn) :
  forall idx ins', k <> -1 -> length ins = length ins' ->
  (forall j a b, nth_error ins j = Some a -> nth_error ins' j = Some b ->
     prev_tx a = prev_tx b /\ prev_idx a = prev_idx b /\ seq a = seq b /\
     (idx + Z.of_nat j = k -> script_sig a = script_sig b)) ->
  encode_inputs_from k idx ins = encode_inputs_from k idx ins'.
Proof.
  induction ins as [|a t IH]; intros idx ins' Hk Hn Hs;
    destruct ins' as [|b t']; try discriminate; [reflexivity|].
  cbn [length] in Hn. injection Hn as Hn.
  destruct (Hs O a b eq_refl eq_refl) as [Hp [Hi [Hq Hsc]]].
  cbn [encode_inputs_from]. unfold encode_input.
  rewrite Hp, Hi, Hq.
  replace ((k =? -1) || (k =? idx)) with (k =? idx)
    by (replace (k =? -1) with false by (symmetry; apply Z.eqb_neq; exact Hk); reflexivity).
  destruct (k =? idx) eqn:Ek.
  - apply Z.eqb_eq in Ek. rewrite Hsc by (cbn; lia).
    rewrite (IH (idx + 1) t'); [reflexivity | exact Hk | exact Hn |].
    intros j a' b' H1 H2. destruct (Hs (S j) a' b' H1 H2) as [? [? [? H]]].
    repeat split; auto. intros E. apply H. lia.
  - rewrite (IH (idx + 1) t'); [reflexivity | exact Hk | exact Hn |].
    intros j a' b' H1 H2. destruct (Hs (S j) a' b' H1 H2) as [? [? [? H]]].
    repeat split; auto. intros E. apply H. lia.
Qed.

(** With a [sig_idx] other than [-1], [Tx.encode] does not depend on the
    [script_sig] of any input but number [sig_idx]: transactions that
    differ only there have the same encoding. *)
Theorem tx_encode_sig_idx_other_inputs (tx tx' : Tx) (k : Z) (Hk : k <> -1)
  (Hv : tx_version tx = tx_version tx') (Ho : outputs tx = outputs tx')
  (Hl : locktime tx = locktime tx') (Hn : length (inputs tx) = length (inputs tx'))
  (Hs : forall j a b, nth_error (inputs tx) j = Some a -> nth_error (inputs tx') j = Some b ->
     prev_tx a = prev_tx b /\ prev_idx a = prev_idx b /\ seq a = seq b /\
     (Z.of_nat j = k -> script_sig a = script_sig b)) :
  tx_encode tx k = tx_encode tx' k.
Proof.
  unfold tx_encode, encode_inputs, encode_outputs.
  rewrite Hv, Ho, Hl, Hn.
  rewrite (encode_inputs_from_other k (inputs tx) 0 (inputs tx')); [reflexivity | exact Hk | exact Hn |].
  intros j a b H1 H2. destruct (Hs j a b H1 H2) as [? [? [? H]]]. auto.
Qed.

Lemma block_roundtrip_witness :
  0 <= bversion (mkBlock 2 (repeat x01 32) (repeat x02 32) 1700000000 [x01; x02; x03; x04] [x00; x00; x00; x05]) < 2 ^ 32 /\
  exists e, block_encode (mkBlock 2 (repeat x01 32) (repeat x02 32) 1700000000 [x01; x02; x03; x04] [x00; x00; x00; x05]) = Ok e /\
    length e = 80%nat /\
    block_decode (e ++ [x09]) = Ok (mkBlock 2 (repeat x01 32) (repeat x02 32) 1700000000 [x01; x02; x03; x04] [x00; x00; x00; x05], [x09]).
Proof.
  split; [cbn; lia|]. apply block_roundtrip; cbn; (reflexivity || lia).
Defined.

Lemma tx_roundtrip_witness :
  forallb tx_input_ok (inputs sample_tx) = true /\ forallb tx_output_ok (outputs sample_tx) = true /\
  exists e, tx_encode sample_tx (-1) = Ok e /\ tx_decode (e ++ [x05]) = Some (Ok (sample_tx, [x05])).
Proof.
  split; [vm_compute; reflexivity|]. split; [vm_compute; reflexivity|].
  apply tx_roundtrip; cbn; try lia; try discriminate; vm_compute; reflexivity.
Defined.

Lemma tx_decode_no_inputs_witness :
  tx_encode (mkTx 1 [] [] 0) (-1) = Ok [x01; x00; x00; x00; x00; x00; x00; x00; x00; x00] /\
  tx_decode ([x01; x00; x00; x00; x00; x00; x00; x00; x00; x00] ++ []) = Some (Err AssertionError).
Proof.
  assert (E : tx_encode (mkTx 1 [] [] 0) (-1) = Ok [x01; x00; x00; x00; x00; x00; x00; x00; x00; x00])
    by (vm_compute; reflexivity).
  split; [exact E|]. apply (tx_decode_no_inputs (mkTx 1 [] [] 0)); [reflexivity | cbn; lia | exact E].
Defined.

Lemma tx_encode_sig_idx_other_inputs_witness :
  tx_encode (mkTx 1 [sample_input [Op 0x51]; sample_input [Op 0x52]] [] 0) 0 =
  tx_encode (mkTx 1 [sample_input [Op 0x51]; sample_input [Push [x02; x03]]] [] 0) 0.
Proof.
  apply tx_encode_sig_idx_other_inputs; try reflexivity; [discriminate|].
  intros j a b H1 H2. destruct j as [|[|j]]; cbn in H1, H2;
    [injection H1 as <-; injection H2 as <- | injection H1 as <-; injection H2 as <- | destruct j; discriminate H1];
    repeat split; cbn; (reflexivity || lia).
Defined.
